(** * Evaluation utilities of the board-game recommender (tools/testing.py)

    A shallow embedding of the four functions of [tools/testing.py]:
    [split_ratings_dataset], [split_testing_set], [coverage] and
    [diversity], together with the pandas / numpy operations they call.

    Conventions of the embedding.
    - A DataFrame of ratings or recommendations is the list of its rows in
      storage order; a row carries its index label, the ['bgg_user_name']
      and ['bgg_id'] cells and the remaining columns.
    - User names are strings, item identifiers are integers; missing (NaN)
      keys are outside the model.
    - The means are rationals, [nan] a separate value. The argument
      [frac] is a rational multiplied exactly in the functions
      [split_ratings_dataset] and [split_testing_set] and in the store
      model; the module [Binary64] gives the two functions with [frac] a
      double and the product [frac * n] rounded as Python rounds it, and
      the statements that depend on the value of [int(frac * n)] or
      [round(frac * n)] are made there. The language is Python 3.
    - A criterion of [diversity] is the name of an attribute column: the
      names ['bgg_id'] and ['bgg_user_name'], for which pandas refuses the
      selection or the join, and repeated names are outside the model.
    - numpy's global generator is a state threaded through the calls; its
      draws are the fields of the class [Generator], constrained only by
      what numpy documents (a shuffle permutes, a choice without
      replacement yields distinct positions).
    - A Python exception is the [Raise] outcome of a [result]. *)

From Stdlib Require Import ZArith QArith Qround Lqa Floats.
From stdpp Require Import base option list sorting gmap strings pretty.

#[local] Set Warnings "-clear-no-such-hyp,-inexact-float".
Local Open Scope Z_scope.

(** ** Exceptions and results *)

Inductive exception : Type :=
  | ValueError (msg : string)
  | KeyError (msg : string)
  | IndexError (msg : string)
  | TypeError (msg : string)
  | OverflowError (msg : string).

Inductive result (A : Type) : Type :=
  | Ok (a : A)
  | Raise (e : exception).
Arguments Ok {A} a.
Arguments Raise {A} e.

Definition result_bind {A B} (r : result A) (k : A → result B) : result B :=
  match r with
  | Ok a => k a
  | Raise e => Raise e
  end.

(** ** Tables *)

Record row : Type := Row {
  index_label : Z;
  bgg_user_name : string;
  bgg_id : Z;
  other_columns : list (string * string)
}.

Abbreviation DataFrame := (list row) (only parsing).

(** [Series.unique()]: the distinct values in order of first appearance,
    found by scanning with a table of the values already seen. *)
Fixpoint unique_from {A} `{EqDecision A} (seen l : list A) : list A :=
  match l with
  | [] => []
  | x :: l' =>
      if decide (x ∈ seen) then unique_from seen l'
      else x :: unique_from (x :: seen) l'
  end.

Definition unique {A} `{EqDecision A} (l : list A) : list A := unique_from [] l.

(** ** [coverage] *)

Definition coverage (top_n_df : DataFrame) : nat :=
  let recommended_games := unique (bgg_id <$> top_n_df) in
  length recommended_games.

(** ** Python numbers

    [int(x)] truncates towards zero; the built-in [round(x)] of Python 3
    rounds to the nearest integer and a tie to the even neighbour. *)

Definition py_int (x : Q) : Z := Z.quot (Qnum x) (Zpos (Qden x)).

Definition py_round (x : Q) : Z :=
  let f := Qfloor x in
  match Qcompare (x - inject_Z f) (1 # 2) with
  | Lt => f
  | Gt => f + 1
  | Eq => if Z.even f then f else f + 1
  end.

(** [frac * n] for a row or user count [n]. *)
Definition scale (frac : Q) (n : nat) : Q := (frac * inject_Z (Z.of_nat n))%Q.

(** Python slices [l[:k]] and [l[k:]]: a negative bound counts from the
    end, and bounds beyond either end are clamped. *)
Definition slice_bound (n : nat) (k : Z) : nat :=
  if k <? 0 then Z.to_nat (Z.of_nat n + k) else Z.to_nat k.

Definition slice_to {A} (l : list A) (k : Z) : list A :=
  take (slice_bound (length l) k) l.

Definition slice_from {A} (l : list A) (k : Z) : list A :=
  drop (slice_bound (length l) k) l.

(** ** Binary64 numbers

    A Python float is an IEEE 754 binary64 number: here a primitive float,
    whose product is the correctly rounded one. *)

(** The exact value of a double. *)
Inductive double_value : Type :=
  | DFinite (q : Q)
  | DInfinity
  | DNaN.

(** The rational [(-1)^s * m * 2^e]. *)
Definition SF2Q (s : bool) (m : positive) (e : Z) : Q :=
  let z := if s then Z.neg m else Z.pos m in
  if 0 <=? e then inject_Z (z * 2 ^ e) else z # 2 ^ Z.to_pos (- e).

Definition exact_value (x : float) : double_value :=
  match Prim2SF x with
  | S754_zero _ => DFinite 0
  | S754_infinity _ => DInfinity
  | S754_nan => DNaN
  | S754_finite s m e => DFinite (SF2Q s m e)
  end.

(** [frac * n] for a row or user count [n] (below [2^63]): the count is
    converted to a double and the product is rounded to the nearest
    double. *)
Definition times (frac : float) (n : nat) : float :=
  (frac * PrimFloat.of_uint63 (Uint63.of_Z (Z.of_nat n)))%float.

(** [int(x)] and [round(x)] of a double [x]: exact on the value of [x];
    an infinity or a NaN raises. *)
Definition int_of_float (x : float) : result Z :=
  match exact_value x with
  | DFinite q => Ok (py_int q)
  | DInfinity => Raise (OverflowError "cannot convert float infinity to integer")
  | DNaN => Raise (ValueError "cannot convert float NaN to integer")
  end.

Definition round_of_float (x : float) : result Z :=
  match exact_value x with
  | DFinite q => Ok (py_round q)
  | DInfinity => Raise (OverflowError "cannot convert float infinity to integer")
  | DNaN => Raise (ValueError "cannot convert float NaN to integer")
  end.

(** ** numpy and pandas operations *)

Definition string_le (s1 s2 : string) : Prop := String.leb s1 s2 = true.

#[global] Instance string_le_dec s1 s2 : Decision (string_le s1 s2).
Proof. unfold string_le. apply _. Defined.

(** [np.unique]: the sorted distinct values. *)
Definition np_unique_str (a : list string) : list string :=
  merge_sort string_le (unique a).

Definition np_unique_nat (a : list nat) : list nat :=
  merge_sort le (unique a).

(** [np.setdiff1d(ar1, ar2)]: the sorted distinct values of [ar1] that are
    not in [ar2]. *)
Definition np_setdiff1d (ar1 ar2 : list nat) : list nat :=
  filter (λ i, i ∉ ar2) (np_unique_nat ar1).

(** [np.arange(n)]. *)
Definition np_arange (n : nat) : list nat := seq 0 n.

(** [df.iloc[positions]]: the rows at the given positions, in that order;
    a position past the end raises. *)
Definition iloc (df : DataFrame) (positions : list nat) : result DataFrame :=
  foldr (λ i acc,
           match df !! i with
           | Some r => result_bind acc (λ rows, Ok (r :: rows))
           | None => Raise (IndexError "positional indexers are out-of-bounds")
           end) (Ok []) positions.

(** [pd.concat(frames)] raises on an empty list of frames. *)
Definition pd_concat (frames : list DataFrame) : result DataFrame :=
  match frames with
  | [] => Raise (ValueError "No objects to concatenate")
  | _ => Ok (concat frames)
  end.

(** The rows of one user, in table order. *)
Definition rows_of (u : string) (df : DataFrame) : DataFrame :=
  filter (λ r, bgg_user_name r = u) df.

(** [df.groupby(by='bgg_user_name')], iterated: one (key, frame) pair per
    distinct user, keys in sorted order. *)
Definition groupby (df : DataFrame) : list (string * DataFrame) :=
  (λ u, (u, rows_of u df)) <$> np_unique_str (bgg_user_name <$> df).

(** [df[df['bgg_user_name'].isin(values)]]. *)
Definition select_isin (df : DataFrame) (values : list string) : DataFrame :=
  filter (λ r, bgg_user_name r ∈ values) df.

(** ** The random generator *)

Class Generator : Type := {
  rng : Type;
  (** the state installed by [np.random.seed(s)], for a seed numpy
      accepts *)
  np_random_seed : Z → rng;
  (** [np.random.shuffle(a)]: the new contents of [a] and the next state *)
  np_random_shuffle : rng → list string → list string * rng;
  (** [np.random.choice(n, k, replace=False)] for [k <= n] *)
  np_random_choice : rng → nat → nat → list nat * rng
}.

Class GeneratorLaws (G : Generator) : Prop := {
  shuffle_permutes g l : (np_random_shuffle g l).1 ≡ₚ l;
  choice_length g n k : (k ≤ n)%nat → length (np_random_choice g n k).1 = k;
  choice_NoDup g n k : (k ≤ n)%nat → NoDup (np_random_choice g n k).1;
  choice_bound g n k :
    (k ≤ n)%nat → Forall (λ i, (i < n)%nat) (np_random_choice g n k).1
}.

(** A small generator to run the model on: the state is a counter, a
    shuffle rotates by the counter, a choice takes a prefix of the rotated
    positions. *)
Definition counter_generator : Generator := {|
  rng := nat;
  np_random_seed := Z.to_nat;
  np_random_shuffle := λ g l, (rotate g l, S g);
  np_random_choice := λ g n k, (take k (rotate g (seq 0 n)), S g)
|}.

(** ** Item metadata and the joined table *)

(** A cell of a criterion column: a collection of labels, or missing
    ([None], pandas' NaN). *)
Definition cell : Type := option (list string).

Record game : Type := Game {
  game_id : Z;
  attributes : gmap string cell
}.

(** The games table: its attribute columns (besides ['bgg_id']) and its
    rows. *)
Record GamesFrame : Type := {
  games_columns : list string;
  games_rows : list game
}.

(** A row of [top_n_df.join(games_df, on='bgg_id', how='left')]: the
    recommendation and the attribute cells of the matched game; the map is
    empty when no game matched. *)
Record joined_row : Type := Joined {
  recommendation : row;
  joined_attributes : gmap string cell
}.

(** [row[criterion]] in the joined table; missing when absent. *)
Definition cell_of (criterion : string) (jr : joined_row) : cell :=
  mjoin (joined_attributes jr !! criterion).

(** A numpy float result. *)
Inductive np_float : Type :=
  | nan
  | finite (q : Q).

#[global] Instance result_ret : MRet result := λ A a, Ok a.
#[global] Instance result_mbind : MBind result := λ A B k r, result_bind r k.

(** The message of pandas' [KeyError] for labels that are not columns:
    the list of the missing labels, then [not in index]. *)
Definition not_in_index (missing : list string) : string :=
  "[" +:+ String.concat ", " ((λ c, "'" +:+ c +:+ "'") <$> missing)
    +:+ "] not in index".

(** [games_df[['bgg_id'] + criterions].set_index('bgg_id')]: a missing
    column raises. *)
Definition select_columns (criterions : list string) (games_df : GamesFrame)
    : result GamesFrame :=
  if decide (criterions ⊆ games_columns games_df) then
    Ok {| games_columns := criterions;
          games_rows :=
            (λ g, Game (game_id g)
                    (filter (λ kv, kv.1 ∈ criterions) (attributes g)))
              <$> games_rows games_df |}
  else
    Raise (KeyError
             (not_in_index
                (unique (filter (λ c, c ∉ games_columns games_df)
                           criterions)))).

(** [top_n_df[['bgg_user_name', 'bgg_id']]] *)
Definition select_user_item (top_n_df : DataFrame) : DataFrame :=
  (λ r, Row (index_label r) (bgg_user_name r) (bgg_id r) []) <$> top_n_df.

(** The left join on ['bgg_id']: every recommendation is kept, once per
    matching game, or once with missing attributes when none matches. *)
Definition left_join (top_n_df : DataFrame) (games : list game)
    : list joined_row :=
  r ← top_n_df;
  match filter (λ g, game_id g = bgg_id r) games with
  | [] => [Joined r ∅]
  | matches => (λ g, Joined r (attributes g)) <$> matches
  end.

Definition joined_user (jr : joined_row) : string :=
  bgg_user_name (recommendation jr).

Definition groupby_joined (df : list joined_row)
    : list (string * list joined_row) :=
  (λ u, (u, filter (λ jr, joined_user jr = u) df))
    <$> np_unique_str (joined_user <$> df).

(** [series.dropna()] *)
Definition dropna (series : list cell) : list (list string) := omap id series.

(** [np.hstack(arrays)] raises on an empty sequence of arrays. *)
Definition np_hstack (arrays : list (list string)) : result (list string) :=
  match arrays with
  | [] => Raise (ValueError "need at least one array to concatenate")
  | _ => Ok (concat arrays)
  end.

(** [np.mean]: [nan] on an empty list. *)
Definition np_mean (l : list nat) : np_float :=
  match l with
  | [] => nan
  | _ => finite (Z.of_nat (sum_list l) # Pos.of_nat (length l))
  end.

(** A [for] loop whose body may raise. *)
Fixpoint for_each {A S} (body : S → A → result S) (s : S) (l : list A)
    : result S :=
  match l with
  | [] => Ok s
  | x :: l' => s' ← body s x; for_each body s' l'
  end.

(** ** [diversity] *)

(** The inner loop body: [diversity_per_user] is a [defaultdict(list)]. *)
Definition user_criterion (user_df : list joined_row)
    (diversity_per_user : gmap string (list nat)) (criterion : string)
    : result (gmap string (list nat)) :=
  stacked ← np_hstack (dropna (cell_of criterion <$> user_df));
  let user_criterion_diversity := length (np_unique_str stacked) in
  Ok (<[criterion :=
          (diversity_per_user !!! criterion) ++ [user_criterion_diversity]]>
        diversity_per_user).

Definition diversity_loop (criterions : list string) (df : list joined_row)
    : result (gmap string (list nat)) :=
  for_each (λ d group, for_each (user_criterion group.2) d criterions)
    ∅ (groupby_joined df).

Definition mean_of (criterions : list string)
    (diversity_per_user : gmap string (list nat)) : gmap string np_float :=
  foldl (λ mean_diversity criterion,
           <[criterion := np_mean (diversity_per_user !!! criterion)]>
             mean_diversity) ∅ criterions.

Definition diversity (top_n_df : DataFrame) (games_df : GamesFrame)
    (criterions : list string) : result (gmap string np_float) :=
  games_df ← select_columns criterions games_df;
  let top_n_df := select_user_item top_n_df in
  let df := left_join top_n_df (games_rows games_df) in
  diversity_per_user ← diversity_loop criterions df;
  Ok (mean_of criterions diversity_per_user).

(** ** Computations with state *)

(** A computation over a state [S] that may raise; the state survives an
    exception. *)
Definition SE (S A : Type) : Type := S → result A * S.

#[global] Instance SE_ret {S} : MRet (SE S) := λ A a s, (Ok a, s).
#[global] Instance SE_bind {S} : MBind (SE S) := λ A B k m s,
  match m s with
  | (Ok a, s') => k a s'
  | (Raise e, s') => (Raise e, s')
  end.

Definition lift {S A} (r : result A) : SE S A := λ s, (r, s).

Section functions.
Context {G : Generator}.

(** Computations that use the global generator. *)
#[local] Abbreviation M := (SE rng) (only parsing).

(** [if seed is not None: np.random.seed(seed)] *)
Definition seed_if_given (seed : option Z) : M unit := λ g,
  (Ok (), from_option np_random_seed g seed).

Definition shuffle (a : list string) : M (list string) := λ g,
  let '(a', g') := np_random_shuffle g a in (Ok a', g').

(** [np.random.choice(n, size, replace=False)] with numpy's checks on
    [size]. *)
Definition choice (n : nat) (size : Z) : M (list nat) := λ g,
  if size <? 0 then
    (Raise (ValueError "Negative dimensions are not allowed"), g)
  else if Z.of_nat n <? size then
    (Raise (ValueError
             "Cannot take a larger sample than population when 'replace=False'"),
     g)
  else let '(a, g') := np_random_choice g n (Z.to_nat size) in (Ok a, g').

(** *** [split_ratings_dataset] *)

Definition split_ratings_dataset
    (ratings_df : DataFrame) (seed : option Z) (frac : Q)
    : M (DataFrame * DataFrame) :=
  seed_if_given seed;;
  users ← shuffle (unique (bgg_user_name <$> ratings_df));
  let train_size := py_int (scale frac (length users)) in
  let train_df := select_isin ratings_df (slice_to users train_size) in
  let test_df := select_isin ratings_df (slice_from users train_size) in
  mret (train_df, test_df).

(** *** [split_testing_set] *)

(** One pass of the loop body: the group's known and unknown rows are
    appended to the two lists. *)
Definition split_group (frac : Q) (acc : list DataFrame * list DataFrame)
    (df : DataFrame) : M (list DataFrame * list DataFrame) :=
  let '(test_known, test_unknown) := acc in
  let df_size := length df in
  let known_size := py_round (scale frac df_size) in
  known_indices ← choice df_size known_size;
  known_data ← lift (iloc df known_indices);
  let unknown_indices := np_setdiff1d (np_arange df_size) known_indices in
  unknown_data ← lift (iloc df unknown_indices);
  mret (test_known ++ [known_data], test_unknown ++ [unknown_data]).

Fixpoint split_groups (frac : Q) (acc : list DataFrame * list DataFrame)
    (grouped : list (string * DataFrame))
    : M (list DataFrame * list DataFrame) :=
  match grouped with
  | [] => mret acc
  | (_, df) :: grouped' =>
      acc' ← split_group frac acc df;
      split_groups frac acc' grouped'
  end.

Definition split_testing_set
    (test_df : DataFrame) (seed : option Z) (frac : Q)
    : M (DataFrame * DataFrame) :=
  seed_if_given seed;;
  let grouped := groupby test_df in
  '(test_known, test_unknown) ← split_groups frac ([], []) grouped;
  known ← lift (pd_concat test_known);
  unknown ← lift (pd_concat test_unknown);
  mret (known, unknown).
End functions.

(** ** The two splits with [frac] a double

    The functions above take [frac] as a rational and multiply exactly.
    Here [frac] is the double the caller passes and [frac * n] is the
    rounded product, as Python computes it; the rest of each function is
    the same. *)

Module Binary64.

Section functions.
Context {G : Generator}.

#[local] Abbreviation M := (SE rng) (only parsing).

Definition split_ratings_dataset
    (ratings_df : DataFrame) (seed : option Z) (frac : float)
    : M (DataFrame * DataFrame) :=
  seed_if_given seed;;
  users ← shuffle (unique (bgg_user_name <$> ratings_df));
  train_size ← lift (int_of_float (times frac (length users)));
  let train_df := select_isin ratings_df (slice_to users train_size) in
  let test_df := select_isin ratings_df (slice_from users train_size) in
  mret (train_df, test_df).

Definition split_group (frac : float) (acc : list DataFrame * list DataFrame)
    (df : DataFrame) : M (list DataFrame * list DataFrame) :=
  let '(test_known, test_unknown) := acc in
  let df_size := length df in
  known_size ← lift (round_of_float (times frac df_size));
  known_indices ← choice df_size known_size;
  known_data ← lift (iloc df known_indices);
  let unknown_indices := np_setdiff1d (np_arange df_size) known_indices in
  unknown_data ← lift (iloc df unknown_indices);
  mret (test_known ++ [known_data], test_unknown ++ [unknown_data]).

Fixpoint split_groups (frac : float) (acc : list DataFrame * list DataFrame)
    (grouped : list (string * DataFrame))
    : M (list DataFrame * list DataFrame) :=
  match grouped with
  | [] => mret acc
  | (_, df) :: grouped' =>
      acc' ← split_group frac acc df;
      split_groups frac acc' grouped'
  end.

Definition split_testing_set
    (test_df : DataFrame) (seed : option Z) (frac : float)
    : M (DataFrame * DataFrame) :=
  seed_if_given seed;;
  let grouped := groupby test_df in
  '(test_known, test_unknown) ← split_groups frac ([], []) grouped;
  known ← lift (pd_concat test_known);
  unknown ← lift (pd_concat test_unknown);
  mret (known, unknown).
End functions.
End Binary64.

(** ** The functions over a store of objects

    The same four functions with their tables held in a store, as Python
    holds them: a function receives references, reads the tables through
    them, and every table or array it builds is a new object.  The one
    write in place is [np.random.shuffle], on the array returned by
    [unique]. *)

Module Imperative.

Inductive object : Type :=
  | ODataFrame (df : DataFrame)
  | OGames (games : GamesFrame)
  | OJoined (df : list joined_row)
  | OArray (a : list string).

Definition ref : Type := nat.

Section functions.
Context {G : Generator}.

Record world : Type := World {
  heap : gmap ref object;
  generator : rng
}.

#[local] Abbreviation I := (SE world) (only parsing).

Definition alloc (o : object) : I ref := λ w,
  let l := fresh (dom (heap w)) in
  (Ok l, World (<[l := o]> (heap w)) (generator w)).

Definition store (l : ref) (o : object) : I unit := λ w,
  (Ok (), World (<[l := o]> (heap w)) (generator w)).

Definition load_frame (l : ref) : I DataFrame := λ w,
  match heap w !! l with
  | Some (ODataFrame df) => (Ok df, w)
  | _ => (Raise (TypeError "DataFrame expected"), w)
  end.

Definition load_games (l : ref) : I GamesFrame := λ w,
  match heap w !! l with
  | Some (OGames games) => (Ok games, w)
  | _ => (Raise (TypeError "DataFrame expected"), w)
  end.

Definition load_joined (l : ref) : I (list joined_row) := λ w,
  match heap w !! l with
  | Some (OJoined df) => (Ok df, w)
  | _ => (Raise (TypeError "DataFrame expected"), w)
  end.

Definition load_array (l : ref) : I (list string) := λ w,
  match heap w !! l with
  | Some (OArray a) => (Ok a, w)
  | _ => (Raise (TypeError "ndarray expected"), w)
  end.

(** A computation on the generator alone leaves the store as it is. *)
Definition with_generator {A} (m : SE rng A) : I A := λ w,
  let '(r, g') := m (generator w) in (r, World (heap w) g').

(** [np.random.shuffle(users)] overwrites the array it is given. *)
Definition shuffle_in_place (users : ref) : I unit :=
  a ← load_array users;
  a' ← with_generator (shuffle a);
  store users (OArray a').

Definition split_ratings_dataset
    (ratings_df : ref) (seed : option Z) (frac : Q) : I (ref * ref) :=
  with_generator (seed_if_given seed);;
  df ← load_frame ratings_df;
  users ← alloc (OArray (unique (bgg_user_name <$> df)));
  shuffle_in_place users;;
  a ← load_array users;
  let train_size := py_int (scale frac (length a)) in
  df ← load_frame ratings_df;
  a ← load_array users;
  train_df ← alloc (ODataFrame (select_isin df (slice_to a train_size)));
  df ← load_frame ratings_df;
  a ← load_array users;
  test_df ← alloc (ODataFrame (select_isin df (slice_from a train_size)));
  mret (train_df, test_df).

Definition split_group (frac : Q) (acc : list ref * list ref)
    (group : DataFrame) : I (list ref * list ref) :=
  let '(test_known, test_unknown) := acc in
  df ← alloc (ODataFrame group);
  rows ← load_frame df;
  let df_size := length rows in
  let known_size := py_round (scale frac df_size) in
  known_indices ← with_generator (choice df_size known_size);
  rows ← load_frame df;
  known_rows ← lift (iloc rows known_indices);
  known_data ← alloc (ODataFrame known_rows);
  let unknown_indices := np_setdiff1d (np_arange df_size) known_indices in
  rows ← load_frame df;
  unknown_rows ← lift (iloc rows unknown_indices);
  unknown_data ← alloc (ODataFrame unknown_rows);
  mret (test_known ++ [known_data], test_unknown ++ [unknown_data]).

Fixpoint split_groups (frac : Q) (acc : list ref * list ref)
    (grouped : list (string * DataFrame)) : I (list ref * list ref) :=
  match grouped with
  | [] => mret acc
  | (_, group) :: grouped' =>
      acc' ← split_group frac acc group;
      split_groups frac acc' grouped'
  end.

Fixpoint load_frames (frames : list ref) : I (list DataFrame) :=
  match frames with
  | [] => mret []
  | l :: frames' =>
      df ← load_frame l;
      dfs ← load_frames frames';
      mret (df :: dfs)
  end.

(** [pd.concat(frames)] on a list of references. *)
Definition concat_frames (frames : list ref) : I ref :=
  dfs ← load_frames frames;
  df ← lift (pd_concat dfs);
  alloc (ODataFrame df).

Definition split_testing_set
    (test_df : ref) (seed : option Z) (frac : Q) : I (ref * ref) :=
  with_generator (seed_if_given seed);;
  df ← load_frame test_df;
  let grouped := groupby df in
  '(test_known, test_unknown) ← split_groups frac ([], []) grouped;
  known ← concat_frames test_known;
  unknown ← concat_frames test_unknown;
  mret (known, unknown).

Definition coverage (top_n_df : ref) : I nat :=
  df ← load_frame top_n_df;
  let recommended_games := unique (bgg_id <$> df) in
  mret (length recommended_games).

(** The assignments to [games_df] and [top_n_df] rebind the local names
    to new tables. *)
Definition diversity (top_n_df games_df : ref) (criterions : list string)
    : I (gmap string np_float) :=
  games ← load_games games_df;
  selected ← lift (select_columns criterions games);
  games_df ← alloc (OGames selected);
  recs ← load_frame top_n_df;
  top_n_df ← alloc (ODataFrame (select_user_item recs));
  recs ← load_frame top_n_df;
  games ← load_games games_df;
  df ← alloc (OJoined (left_join recs (games_rows games)));
  joined ← load_joined df;
  diversity_per_user ← lift (diversity_loop criterions joined);
  mret (mean_of criterions diversity_per_user).

(** *** Vocabulary of the statements about the store *)

(** [keeps h m post]: run from any store that still holds every object of
    [h] as it was, [m] ends in such a store, and a returned value
    satisfies [post]. *)
Definition keeps {A} (h : gmap ref object) (m : I A) (post : A → Prop)
    : Prop :=
  ∀ w, h ⊆ heap w →
    h ⊆ heap (m w).2 ∧ ∀ a, (m w).1 = Ok a → post a.

(** The reference is not one of the store [h]. *)
Definition fresh_for (h : gmap ref object) (l : ref) : Prop := l ∉ dom h.

(** The references of a list refer to the frames of a list. *)
Definition points_to (w : world) (refs : list ref)
    (frames : list DataFrame) : Prop :=
  Forall2 (λ l frame, heap w !! l = Some (ODataFrame frame)) refs frames.

Definition points_to_both (w : world) (refs : list ref * list ref)
    (frames : list DataFrame * list DataFrame) : Prop :=
  points_to w refs.1 frames.1 ∧ points_to w refs.2 frames.2.

(** Every object of [w] is in [w'], as it was. *)
Definition extends (w w' : world) : Prop :=
  ∀ l o, heap w !! l = Some o → heap w' !! l = Some o.

(** What the call on references owes the call on values: the same
    exception, or references to the same tables; the same generator state;
    and a store that extends the one before. *)
Definition agrees {A B} (R : world → A → B → Prop) (w : world)
    (imperative : result A * world) (functional : result B * rng) : Prop :=
  extends w imperative.2 ∧ generator imperative.2 = functional.2 ∧
  match functional.1 with
  | Ok b => ∃ a, imperative.1 = Ok a ∧ R imperative.2 a b
  | Raise e => imperative.1 = Raise e
  end.
End functions.

End Imperative.

(** ** Vocabulary of the statements *)

(** The set of item identifiers of a recommendation table. *)
Definition item_set (df : DataFrame) : gset Z := list_to_set (bgg_id <$> df).

(** The set of users of a ratings table. *)
Definition user_set (df : DataFrame) : gset string :=
  list_to_set (bgg_user_name <$> df).

(** The distinct users of a table as [split_ratings_dataset] shuffles
    them, from the generator state [g] the call starts in. *)
Definition shuffled_users {G : Generator}
    (ratings_df : DataFrame) (seed : option Z) (g : rng) : list string :=
  (np_random_shuffle (from_option np_random_seed g seed)
     (unique (bgg_user_name <$> ratings_df))).1.


(** [round(frac * n)] is a legal sample size for a group of [n] rows. *)
Definition size_ok (frac : Q) (df : DataFrame) : Prop :=
  0 ≤ py_round (scale frac (length df)) ≤ Z.of_nat (length df).

(** The rows at a list of positions. *)
Definition rows_at (df : DataFrame) (positions : list nat) : DataFrame :=
  omap (λ i, df !! i) positions.

(** What one pass of the loop of [split_testing_set] owes a group: its
    known and unknown rows are the rows of the group, and the known rows
    number [round(frac * df_size)]. *)
Definition part_ok (frac : Q) (df : DataFrame) (part : DataFrame * DataFrame)
    : Prop :=
  part.1 ++ part.2 ≡ₚ df ∧
  Z.of_nat (length part.1) = py_round (scale frac (length df)).

(** Every user's group allows its sample size. *)
Definition sizes_ok (frac : Q) (test_df : DataFrame) : Prop :=
  ∀ u, u ∈ bgg_user_name <$> test_df → size_ok frac (rows_of u test_df).

(** The label collections recorded for an item under a criterion: one per
    metadata row of the item whose cell is not missing. *)
Definition item_labels (criterion : string) (item : Z) (games : list game)
    : list (list string) :=
  omap (λ g, mjoin (attributes g !! criterion))
    (filter (λ g, game_id g = item) games).

(** The user [u] has no label at all under the criterion: each recommended
    item has no metadata row, or only missing cells. *)
Definition no_labels (criterion u : string) (top_n_df : DataFrame)
    (games : list game) : Prop :=
  ∀ r, r ∈ top_n_df → bgg_user_name r = u →
    item_labels criterion (bgg_id r) games = [].

(** The label collections of the items recommended to [u], and the
    number of distinct labels among them. *)
Definition labels_of (criterion u : string) (top_n_df : DataFrame)
    (games : list game) : list (list string) :=
  r ← rows_of u top_n_df; item_labels criterion (bgg_id r) games.

Definition distinct_labels (criterion u : string) (top_n_df : DataFrame)
    (games : list game) : nat :=
  size (list_to_set (concat (labels_of criterion u top_n_df games))
          : gset string).

(** The count [diversity] appends for a group of joined rows. *)
Definition group_count (criterion : string) (user_df : list joined_row) : nat :=
  length (np_unique_str (concat (dropna (cell_of criterion <$> user_df)))).

(** The user [u] has a label collection under the criterion. *)
Definition has_labels (criterion u : string) (top_n_df : DataFrame)
    (games : list game) : Prop :=
  labels_of criterion u top_n_df games ≠ [].

(** What one pass of the loop of [split_testing_set] makes of a group: the
    rows at the drawn positions, and the rows at the other positions in
    increasing order. *)
Definition part_drawn (frac : Q) (df : DataFrame)
    (part : DataFrame * DataFrame) : Prop :=
  ∃ chosen,
    NoDup chosen ∧ Forall (λ i, (i < length df)%nat) chosen ∧
    Z.of_nat (length chosen) = py_round (scale frac (length df)) ∧
    part = (rows_at df chosen,
            rows_at df (np_setdiff1d (np_arange (length df)) chosen)).

(** The exception of [np.hstack] on an empty sequence. *)
Definition hstack_error : exception :=
  ValueError "need at least one array to concatenate".

(** ** Vocabulary of the statements about doubles *)

(** [round(frac * n)] is a number, and a legal sample size for a group of
    [n] rows. *)
Definition size_allowed (frac : float) (n : nat) : bool :=
  match round_of_float (times frac n) with
  | Ok k => (0 <=? k) && (k <=? Z.of_nat n)
  | Raise _ => false
  end.

(** Every user's group allows its sample size. *)
Definition sizes_allowed (frac : float) (test_df : DataFrame) : bool :=
  forallb (λ u, size_allowed frac (length (rows_of u test_df)))
    (np_unique_str (bgg_user_name <$> test_df)).

(** The exceptions of a sample size: [np.random.choice] refuses the size
    with a [ValueError]; rounding an infinite product raises an
    [OverflowError], rounding a NaN a [ValueError]. *)
Definition size_error (e : exception) : Prop :=
  match e with
  | ValueError _ | OverflowError _ => True
  | _ => False
  end.

(** The product [frac * n] is a number, and not negative. *)
Definition product_nonneg (frac : float) (n : nat) : Prop :=
  match exact_value (times frac n) with
  | DFinite q => (0 <= q)%Q
  | _ => False
  end.

(** The floor of the product [frac * n], when it is a number. *)
Definition product_floor (frac : float) (n : nat) : Z :=
  match exact_value (times frac n) with
  | DFinite q => Qfloor q
  | _ => 0
  end.

(** What one pass of the loop makes of a group for the sample size
    [known_size]: the rows at the drawn positions, and the rows at the
    other positions in increasing order. *)
Definition part_of_size (known_size : Z) (df : DataFrame)
    (part : DataFrame * DataFrame) : Prop :=
  ∃ chosen,
    NoDup chosen ∧ Forall (λ i, (i < length df)%nat) chosen ∧
    Z.of_nat (length chosen) = known_size ∧
    part = (rows_at df chosen,
            rows_at df (np_setdiff1d (np_arange (length df)) chosen)).

(** No criterion is named as a key column of the join. *)
Definition no_key_column (criterions : list string) : Prop :=
  ("bgg_id" ∉ criterions) ∧ ("bgg_user_name" ∉ criterions).

(** ** Example data *)

Definition ratings_example : DataFrame :=
  [ Row 0 "bob" 1 [("bgg_rating", "8")];
    Row 1 "al" 2 [("bgg_rating", "6")];
    Row 2 "bob" 3 [("bgg_rating", "7")];
    Row 3 "cy" 1 [("bgg_rating", "9")];
    Row 4 "bob" 7 [("bgg_rating", "5")] ].

Definition one_rating : DataFrame := [Row 0 "ann" 13 [("bgg_rating", "7")]].

(** Two games with categories {A, B} and {B, C}; the second has no
    mechanic recorded. *)
Definition games_example : GamesFrame := {|
  games_columns := ["category"; "mechanic"];
  games_rows :=
    [ Game 1 {[ "category" := Some ["A"; "B"]; "mechanic" := Some ["x"] ]};
      Game 2 {[ "category" := Some ["B"; "C"]; "mechanic" := None ]} ]
|}.

(** One user recommended the two games. *)
Definition top_n_example : DataFrame :=
  [ Row 0 "ann" 1 [("score", "0.9")]; Row 1 "ann" 2 [("score", "0.8")] ].

(** A second user is recommended an item that is not in the games table. *)
Definition top_n_unknown_item : DataFrame :=
  top_n_example ++ [ Row 2 "ben" 99 [("score", "0.7")] ].

(** [n] users with one rating each, and one user with [n] ratings. *)
Definition one_row_each (n : nat) : DataFrame :=
  (λ i, Row (Z.of_nat i) ("user" +:+ pretty i) 1 []) <$> seq 0 n.

Definition rows_of_ann (n : nat) : DataFrame :=
  (λ i, Row (Z.of_nat i) "ann" (Z.of_nat i) []) <$> seq 0 n.

(** A user with 45 ratings and a user with one. *)
Definition ann_and_zoe : DataFrame := rows_of_ann 45 ++ [Row 45 "zoe" 3 []].

(** ** Facts about [unique] *)

Section unique_facts.
Context {A : Type} `{EqDecision A}.
Implicit Types (x : A) (l seen : list A).

Lemma elem_of_unique_from seen l x :
  x ∈ unique_from seen l ↔ x ∈ l ∧ x ∉ seen.
Proof.
  revert seen; induction l as [|y l IH]; intros seen; simpl.
  - set_solver.
  - case_decide as Hy.
    + rewrite IH. set_solver.
    + rewrite elem_of_cons, IH. destruct (decide (x = y)); set_solver.
Qed.

Lemma NoDup_unique_from seen l : NoDup (unique_from seen l).
Proof.
  revert seen; induction l as [|y l IH]; intros seen; simpl.
  - constructor.
  - case_decide; [apply IH|].
    constructor; [|apply IH].
    rewrite elem_of_unique_from. set_solver.
Qed.

Lemma elem_of_unique l x : x ∈ unique l ↔ x ∈ l.
Proof. unfold unique. rewrite elem_of_unique_from. set_solver. Qed.

Lemma NoDup_unique l : NoDup (unique l).
Proof. apply NoDup_unique_from. Qed.

Lemma unique_from_NoDup seen l :
  NoDup l → (∀ x, x ∈ l → x ∉ seen) → unique_from seen l = l.
Proof.
  revert seen; induction l as [|y l IH]; intros seen Hnd Hs; simpl; [done|].
  apply NoDup_cons in Hnd as [Hy Hnd].
  case_decide as Hin; [exfalso; eapply Hs; [left|done]|].
  f_equal. apply IH; [done|].
  intros x Hx. rewrite elem_of_cons. intros [->|Hx']; [done|].
  eapply Hs; [right|]; done.
Qed.

Lemma unique_NoDup l : NoDup l → unique l = l.
Proof. intros. apply unique_from_NoDup; [done|]. set_solver. Qed.

Lemma unique_Permutation_length l1 l2 :
  l1 ≡ₚ l2 → length (unique l1) = length (unique l2).
Proof.
  intros Hp. apply Permutation_length, NoDup_Permutation;
    [apply NoDup_unique..|].
  intros x. rewrite !elem_of_unique. by rewrite Hp.
Qed.
End unique_facts.

Lemma length_unique_size `{Countable A} (l : list A) :
  length (unique l) = size (list_to_set l : gset A).
Proof.
  rewrite <- (size_list_to_set (C:=gset A) (unique l)) by apply NoDup_unique.
  f_equal. apply set_eq. intros x.
  rewrite !elem_of_list_to_set. apply elem_of_unique.
Qed.

(** C6. [coverage] is the number of distinct item identifiers of the
    ['bgg_id'] column: it is the size of the set of identifiers, it does
    not depend on the order of the rows, a row whose identifier already
    occurs does not change it, it is 3 on the items [1,1,2,3] and 0 on the
    empty table. *)
Theorem coverage_counts_distinct_items :
  (∀ df : DataFrame, coverage df = size (item_set df)) ∧
  (∀ df1 df2 : DataFrame, df1 ≡ₚ df2 → coverage df1 = coverage df2) ∧
  (∀ (r : row) (df : DataFrame),
      bgg_id r ∈ bgg_id <$> df → coverage (df ++ [r]) = coverage df) ∧
  (∀ r1 r2 r3 r4 : row,
      bgg_id r1 = 1 → bgg_id r2 = 1 → bgg_id r3 = 2 → bgg_id r4 = 3 →
      coverage [r1; r2; r3; r4] = 3%nat) ∧
  coverage [] = 0%nat.
Proof.
  assert (Hsz : ∀ df : DataFrame, coverage df = size (item_set df))
    by (intros df; apply length_unique_size).
  split_and!; [done| | | |done].
  - intros df1 df2 Hp. unfold coverage.
    apply unique_Permutation_length. by rewrite Hp.
  - intros r df Hin. rewrite !Hsz. unfold item_set. f_equal.
    rewrite fmap_app, list_to_set_app_L. simpl.
    apply (elem_of_list_to_set (C:=gset Z)) in Hin. set_solver.
  - intros r1 r2 r3 r4 H1 H2 H3 H4. unfold coverage. simpl.
    rewrite H1, H2, H3, H4. reflexivity.
Qed.

(** ** The counter generator obeys the laws *)

Lemma rotate_Permutation {A} (n : nat) (l : list A) : rotate n l ≡ₚ l.
Proof.
  unfold rotate. rewrite Permutation_app_comm. by rewrite take_drop.
Qed.

Lemma counter_generator_laws : GeneratorLaws counter_generator.
Proof.
  split; simpl.
  - intros g l. apply rotate_Permutation.
  - intros g n k Hk. rewrite length_take, length_rotate, length_seq. lia.
  - intros g n k Hk. apply (sublist_NoDup _ (rotate g (seq 0 n)));
      [|apply sublist_take].
    rewrite rotate_Permutation. apply NoDup_seq.
  - intros g n k Hk. apply Forall_forall. intros i Hi.
    apply subseteq_take in Hi. rewrite rotate_Permutation in Hi.
    apply elem_of_seq in Hi. lia.
Qed.

(** ** Python numbers *)

Lemma py_int_nonneg (x : Q) : (0 <= x)%Q → py_int x = Qfloor x.
Proof.
  destruct x as [n d]. unfold Qle, py_int, Qfloor. simpl. intros Hn.
  apply Z.quot_div_nonneg; lia.
Qed.


Lemma py_round_comp (x y : Q) : (x == y)%Q → py_round x = py_round y.
Proof.
  intros Hxy. unfold py_round. rewrite (Qfloor_comp _ _ Hxy).
  assert (Hc : (x - inject_Z (Qfloor y) ?= 1 # 2)%Q =
               (y - inject_Z (Qfloor y) ?= 1 # 2)%Q)
    by (apply Qcompare_comp; [by rewrite Hxy|reflexivity]).
  by rewrite Hc.
Qed.

(** [round] moves to a neighbouring integer at distance at most one half. *)
Lemma py_round_cases (x : Q) :
  (py_round x = Qfloor x ∧ (x - inject_Z (Qfloor x) <= 1 # 2)%Q) ∨
  (py_round x = Qfloor x + 1 ∧ (1 # 2 <= x - inject_Z (Qfloor x))%Q).
Proof.
  unfold py_round.
  destruct (Qcompare_spec (x - inject_Z (Qfloor x)) (1 # 2)) as [He|Hl|Hg].
  - destruct (Z.even (Qfloor x)); [left|right]; (split; [done|]);
      rewrite He; apply Qle_refl.
  - left. split; [done|]. by apply Qlt_le_weak.
  - right. split; [done|]. by apply Qlt_le_weak.
Qed.


(** ** Slices *)

Lemma slice_to_from {A} (l : list A) (k : Z) : slice_to l k ++ slice_from l k = l.
Proof. apply take_drop. Qed.

Lemma slice_nonneg {A} (l : list A) (k : Z) :
  0 ≤ k → slice_to l k = take (Z.to_nat k) l ∧ slice_from l k = drop (Z.to_nat k) l.
Proof.
  intros Hk. unfold slice_to, slice_from, slice_bound.
  destruct (Z.ltb_spec k 0); [lia|done].
Qed.

(** ** Selecting rows by user *)

Lemma select_isin_split (df : DataFrame) (l1 l2 : list string) :
  (∀ u, u ∈ bgg_user_name <$> df → u ∈ l1 ++ l2) →
  (∀ u, u ∈ l1 → u ∉ l2) →
  select_isin df l1 ++ select_isin df l2 ≡ₚ df.
Proof.
  intros Hcov Hdisj. unfold select_isin.
  induction df as [|r df IH]; [done|].
  assert (Hr : bgg_user_name r ∈ l1 ++ l2)
    by (apply Hcov; rewrite fmap_cons; left).
  assert (IH' : filter (λ r, bgg_user_name r ∈ l1) df ++
                filter (λ r, bgg_user_name r ∈ l2) df ≡ₚ df).
  { apply IH. intros u Hu. apply Hcov. rewrite fmap_cons. by right. }
  rewrite (filter_cons (λ r, bgg_user_name r ∈ l1)),
    (filter_cons (λ r, bgg_user_name r ∈ l2)).
  destruct (decide (bgg_user_name r ∈ l1)) as [H1|H1];
    destruct (decide (bgg_user_name r ∈ l2)) as [H2|H2].
  - by destruct (Hdisj _ H1).
  - simpl. by rewrite IH'.
  - rewrite <- Permutation_middle. by rewrite IH'.
  - apply elem_of_app in Hr as [?|?]; done.
Qed.

Lemma user_set_select_isin (df : DataFrame) (l : list string) :
  l ⊆ bgg_user_name <$> df →
  user_set (select_isin df l) = list_to_set l.
Proof.
  intros Hl. apply set_eq. intros u. unfold user_set, select_isin.
  rewrite !elem_of_list_to_set, list_elem_of_fmap. split.
  - intros (r & -> & Hr). by apply list_elem_of_filter in Hr as [? _].
  - intros Hu. destruct (proj1 (list_elem_of_fmap _ _ _) (Hl _ Hu))
      as (r & -> & Hr).
    exists r. split; [done|]. by apply list_elem_of_filter.
Qed.

Section split_ratings_dataset_facts.
Context {G : Generator} {laws : GeneratorLaws G}.
Implicit Types (ratings_df : DataFrame) (seed : option Z) (frac : Q).

Lemma shuffled_users_Permutation ratings_df seed g :
  shuffled_users ratings_df seed g ≡ₚ unique (bgg_user_name <$> ratings_df).
Proof. apply shuffle_permutes. Qed.

Lemma NoDup_shuffled_users ratings_df seed g :
  NoDup (shuffled_users ratings_df seed g).
Proof. rewrite shuffled_users_Permutation. apply NoDup_unique. Qed.

Lemma elem_of_shuffled_users ratings_df seed g u :
  u ∈ shuffled_users ratings_df seed g ↔ u ∈ bgg_user_name <$> ratings_df.
Proof. rewrite shuffled_users_Permutation. apply elem_of_unique. Qed.

(** The call, unfolded: the two tables are selected by the two slices
    of the shuffled users. *)
Lemma split_ratings_dataset_run ratings_df seed frac g :
  let users := shuffled_users ratings_df seed g in
  let train_size := py_int (scale frac (length users)) in
  ∃ g', split_ratings_dataset ratings_df seed frac g =
          (Ok (select_isin ratings_df (slice_to users train_size),
               select_isin ratings_df (slice_from users train_size)), g').
Proof.
  unfold split_ratings_dataset, shuffled_users, seed_if_given, shuffle,
    mbind, SE_bind, mret, SE_ret. simpl.
  destruct (np_random_shuffle _ _) as [users g']. simpl. by exists g'.
Qed.
End split_ratings_dataset_facts.

Lemma select_isin_nil (df : DataFrame) : select_isin df [] = [].
Proof.
  unfold select_isin. induction df as [|r df IH]; [done|].
  rewrite (filter_cons (λ r, bgg_user_name r ∈ [])).
  destruct (decide (bgg_user_name r ∈ [])) as [Hin|_]; [|done].
  by apply elem_of_nil in Hin.
Qed.

(** C1. [split_ratings_dataset] returns a train and a test table whose
    user sets are disjoint and together are the users of the input, and
    whose rows together are the rows of the input, each exactly once and
    whole. This holds for every [frac], in particular between 0 and 1. *)
Theorem split_ratings_dataset_partitions
    {G : Generator} (laws : GeneratorLaws G)
    (ratings_df : DataFrame) (seed : option Z) (frac : Q) (g : rng) :
  ∃ train test g',
    split_ratings_dataset ratings_df seed frac g = (Ok (train, test), g') ∧
    user_set train ## user_set test ∧
    user_set train ∪ user_set test = user_set ratings_df ∧
    train ++ test ≡ₚ ratings_df.
Proof.
  destruct (split_ratings_dataset_run ratings_df seed frac g) as [g' Hrun].
  set (users := shuffled_users ratings_df seed g) in *.
  set (k := py_int (scale frac (length users))) in *.
  eexists _, _, g'. split; [exact Hrun|].
  pose proof (NoDup_shuffled_users ratings_df seed g) as Hnd.
  fold users in Hnd. rewrite <- (slice_to_from users k) in Hnd.
  apply NoDup_app in Hnd as (_ & Hdisj & _).
  assert (Hto : slice_to users k ⊆ bgg_user_name <$> ratings_df).
  { intros u Hu. apply (elem_of_shuffled_users ratings_df seed g).
    fold users. rewrite <- (slice_to_from users k). set_solver. }
  assert (Hfrom : slice_from users k ⊆ bgg_user_name <$> ratings_df).
  { intros u Hu. apply (elem_of_shuffled_users ratings_df seed g).
    fold users. rewrite <- (slice_to_from users k). set_solver. }
  rewrite !user_set_select_isin by done.
  split_and!.
  - intros u. rewrite !elem_of_list_to_set. apply Hdisj.
  - rewrite <- list_to_set_app_L, slice_to_from. apply set_eq. intros u.
    unfold user_set. rewrite !elem_of_list_to_set.
    apply elem_of_shuffled_users.
  - apply select_isin_split; [|done].
    intros u Hu. rewrite slice_to_from.
    by apply elem_of_shuffled_users.
Qed.

Lemma split_ratings_dataset_partitions_witness :
  GeneratorLaws counter_generator ∧
  ∃ train test g',
    split_ratings_dataset (G := counter_generator)
      ratings_example (Some 1) (7 # 10) 0%nat = (Ok (train, test), g') ∧
    user_set train ## user_set test ∧
    user_set train ∪ user_set test = user_set ratings_example ∧
    train ++ test ≡ₚ ratings_example.
Proof.
  split; [exact counter_generator_laws|].
  exact (split_ratings_dataset_partitions counter_generator_laws
           ratings_example (Some 1) (7 # 10) 0%nat).
Defined.

(** ** Positions and [iloc] *)

Lemma Sorted_le_seq (j n : nat) : Sorted le (seq j n).
Proof.
  revert j; induction n as [|n IH]; intros j; simpl; [constructor|].
  constructor; [apply IH|]. destruct n; simpl; constructor. lia.
Qed.

Lemma np_unique_nat_seq (n : nat) : np_unique_nat (seq 0 n) = seq 0 n.
Proof.
  unfold np_unique_nat. rewrite unique_NoDup by apply NoDup_seq.
  apply (Sorted_unique le).
  - apply Sorted_merge_sort; apply _.
  - apply Sorted_le_seq.
  - apply merge_sort_Permutation.
Qed.

Lemma np_setdiff1d_arange (n : nat) (chosen : list nat) :
  np_setdiff1d (np_arange n) chosen = filter (λ i, i ∉ chosen) (seq 0 n).
Proof. unfold np_setdiff1d, np_arange. by rewrite np_unique_nat_seq. Qed.

Lemma chosen_and_rest (n : nat) (chosen : list nat) :
  NoDup chosen → Forall (λ i, (i < n)%nat) chosen →
  chosen ++ np_setdiff1d (np_arange n) chosen ≡ₚ seq 0 n.
Proof.
  intros Hnd Hlt. rewrite np_setdiff1d_arange.
  apply NoDup_Permutation.
  - apply NoDup_app. split_and!; [done| |].
    + intros i Hi Hi'. by apply list_elem_of_filter in Hi' as [? _].
    + apply NoDup_filter, NoDup_seq.
  - apply NoDup_seq.
  - intros i. rewrite elem_of_app, list_elem_of_filter, elem_of_seq.
    rewrite Forall_forall in Hlt. split.
    + intros [Hi|[_ Hi]]; [apply Hlt in Hi|]; lia.
    + intros Hi. destruct (decide (i ∈ chosen)); [by left|right; done].
Qed.

Lemma iloc_cons (df : DataFrame) (i : nat) (positions : list nat) :
  iloc df (i :: positions) =
    match df !! i with
    | Some r => result_bind (iloc df positions) (λ rows, Ok (r :: rows))
    | None => Raise (IndexError "positional indexers are out-of-bounds")
    end.
Proof. reflexivity. Qed.

Lemma iloc_in_bounds (df : DataFrame) (positions : list nat) :
  Forall (λ i, (i < length df)%nat) positions →
  iloc df positions = Ok (rows_at df positions) ∧
  length (rows_at df positions) = length positions.
Proof.
  induction 1 as [|i positions Hi _ [IH1 IH2]]; [done|].
  destruct (lookup_lt_is_Some_2 df i Hi) as [r Hr].
  rewrite iloc_cons, Hr, IH1. unfold rows_at in *. simpl.
  rewrite Hr. simpl. split; [done|]. f_equal. exact IH2.
Qed.

Lemma rows_at_all (df : DataFrame) : rows_at df (seq 0 (length df)) = df.
Proof.
  unfold rows_at. induction df as [|r df IH]; [done|].
  simpl. f_equal. rewrite <- fmap_S_seq. rewrite <- IH at 2.
  apply list_omap_ext, Forall2_fmap_l, Forall_Forall2_diag, Forall_forall.
  by intros.
Qed.

Lemma rows_at_Permutation (df : DataFrame) (l1 l2 : list nat) :
  l1 ++ l2 ≡ₚ seq 0 (length df) → rows_at df l1 ++ rows_at df l2 ≡ₚ df.
Proof.
  intros Hp. rewrite <- (rows_at_all df) at 3.
  unfold rows_at. by rewrite <- omap_app, Hp.
Qed.

(** ** Grouping by user *)

Lemma np_unique_str_Permutation (a : list string) : np_unique_str a ≡ₚ unique a.
Proof. apply merge_sort_Permutation. Qed.

Lemma NoDup_np_unique_str (a : list string) : NoDup (np_unique_str a).
Proof. rewrite np_unique_str_Permutation. apply NoDup_unique. Qed.

Lemma elem_of_np_unique_str (a : list string) (u : string) :
  u ∈ np_unique_str a ↔ u ∈ a.
Proof. rewrite np_unique_str_Permutation. apply elem_of_unique. Qed.

Lemma length_np_unique_str (a : list string) :
  length (np_unique_str a) = length (unique a).
Proof. by rewrite np_unique_str_Permutation. Qed.

Lemma rows_of_user (u : string) (df : DataFrame) (r : row) :
  r ∈ rows_of u df → bgg_user_name r = u.
Proof. intros Hr. by apply list_elem_of_filter in Hr as [? _]. Qed.

Lemma rows_of_same (u : string) (df : DataFrame) :
  Forall (λ r, bgg_user_name r = u) df → rows_of u df = df.
Proof.
  unfold rows_of. induction 1 as [|r df Hr _ IH]; [done|].
  rewrite filter_cons, decide_True by done. by rewrite IH.
Qed.

Lemma rows_of_other (u : string) (df : DataFrame) :
  Forall (λ r, bgg_user_name r ≠ u) df → rows_of u df = [].
Proof.
  unfold rows_of. induction 1 as [|r df Hr _ IH]; [done|].
  by rewrite filter_cons, decide_False.
Qed.


(** The groups of distinct keys are the selected rows, up to order. *)
Lemma concat_groups (keys : list string) (df : DataFrame) :
  NoDup keys →
  concat ((λ u, rows_of u df) <$> keys) ≡ₚ select_isin df keys.
Proof.
  induction 1 as [|u keys Hu Hnd IH]; simpl.
  - by rewrite select_isin_nil.
  - rewrite IH. clear IH. unfold rows_of, select_isin.
    induction df as [|r df IH]; [done|].
    rewrite !filter_cons.
    destruct (decide (bgg_user_name r = u)) as [Heq|Hne];
      destruct (decide (bgg_user_name r ∈ keys)) as [Hin|Hin];
      destruct (decide (bgg_user_name r ∈ u :: keys)) as [Hin'|Hin'].
    + by rewrite Heq in Hin.
    + by rewrite Heq in Hin.
    + simpl. by rewrite IH.
    + exfalso. apply Hin'. rewrite Heq. left.
    + rewrite <- Permutation_middle. by rewrite IH.
    + exfalso. apply Hin'. by right.
    + apply elem_of_cons in Hin' as [?|?]; done.
    + done.
Qed.

Lemma select_isin_all (df : DataFrame) (keys : list string) :
  (∀ u, u ∈ bgg_user_name <$> df → u ∈ keys) → select_isin df keys = df.
Proof.
  unfold select_isin. induction df as [|r df IH]; intros Hall; [done|].
  rewrite filter_cons, decide_True by (apply Hall; rewrite fmap_cons; left).
  rewrite IH; [done|]. intros u Hu. apply Hall. rewrite fmap_cons. by right.
Qed.

Lemma groupby_concat (df : DataFrame) : concat (groupby df).*2 ≡ₚ df.
Proof.
  unfold groupby. rewrite <- list_fmap_compose.
  rewrite (concat_groups _ df) by apply NoDup_np_unique_str.
  rewrite select_isin_all; [done|].
  intros u Hu. by apply elem_of_np_unique_str.
Qed.

Lemma groupby_nil_inv (df : DataFrame) : groupby df = [] → df = [].
Proof.
  intros Hnil. pose proof (groupby_concat df) as Hp.
  rewrite Hnil in Hp. simpl in Hp. symmetry. by apply Permutation_nil_l.
Qed.

(** ** Running computations *)

Lemma bind_ok {S A B} (m : SE S A) (k : A → SE S B) (s s' : S) (a : A) :
  m s = (Ok a, s') → (m ≫= k) s = k a s'.
Proof. unfold mbind, SE_bind. by intros ->. Qed.

Lemma bind_raise {S A B} (m : SE S A) (k : A → SE S B) (s s' : S) e :
  m s = (Raise e, s') → (m ≫= k) s = (Raise e, s').
Proof. unfold mbind, SE_bind. by intros ->. Qed.

Lemma lift_ok_bind {S A B} (a : A) (k : A → SE S B) (s : S) :
  (lift (Ok a) ≫= k) s = k a s.
Proof. reflexivity. Qed.

Lemma lift_raise_bind {S A B} (e : exception) (k : A → SE S B) (s : S) :
  (lift (Raise e) ≫= k) s = (Raise e, s).
Proof. reflexivity. Qed.

Section split_testing_set_facts.
Context {G : Generator} {laws : GeneratorLaws G}.
Implicit Types (df test_df : DataFrame) (seed : option Z) (frac : Q).

Lemma choice_ok (n : nat) (size : Z) (g : rng) :
  0 ≤ size ≤ Z.of_nat n →
  ∃ chosen g', choice n size g = (Ok chosen, g') ∧
    Z.of_nat (length chosen) = size ∧ NoDup chosen ∧
    Forall (λ i, (i < n)%nat) chosen.
Proof.
  intros Hsize. unfold choice.
  destruct (Z.ltb_spec size 0); [lia|].
  destruct (Z.ltb_spec (Z.of_nat n) size); [lia|].
  assert (Hk : (Z.to_nat size ≤ n)%nat) by lia.
  pose proof (choice_length g n _ Hk) as Hlen.
  pose proof (choice_NoDup g n _ Hk) as Hnd.
  pose proof (choice_bound g n _ Hk) as Hlt.
  destruct (np_random_choice g n (Z.to_nat size)) as [chosen g'].
  simpl in *. exists chosen, g'. split_and!; [done|lia|done..].
Qed.


End split_testing_set_facts.

Lemma rows_of_app (u : string) (df1 df2 : DataFrame) :
  rows_of u (df1 ++ df2) = rows_of u df1 ++ rows_of u df2.
Proof. apply filter_app. Qed.


Lemma parts_concat (frac : Q) (grouped : list (string * DataFrame))
    (parts : list (DataFrame * DataFrame)) :
  Forall2 (λ group part, part_ok frac group.2 part) grouped parts →
  concat parts.*1 ++ concat parts.*2 ≡ₚ concat grouped.*2.
Proof.
  induction 1 as [|[u df] [k h] grouped parts [Hp _] _ IH]; [done|].
  simpl in *. rewrite <- Hp, <- IH.
  rewrite <- !app_assoc. apply Permutation_app_head.
  rewrite !app_assoc. apply Permutation_app_tail, Permutation_app_comm.
Qed.



Section split_testing_set_spec.
Context {G : Generator} {laws : GeneratorLaws G}.
Implicit Types (test_df : DataFrame) (seed : option Z) (frac : Q).


End split_testing_set_spec.

(** ** [split_testing_set]: the statements *)




(** C5 as stated fails at [frac = 1/2]: [round(0.5 * 1)] is 0, not 1, so
    the single row of [one_rating] is held out and the known table is
    empty. (And with [frac = 2], also at least one half, the sample size 2
    exceeds the single row and the call raises.) The product [0.5 * 1] is
    exact, and the run on the double [0.5] is the same. *)
Lemma split_testing_set_half_holds_out_single_row :
  py_round (scale (1 # 2) 1) = 0 ∧
  (split_testing_set (G := counter_generator)
     one_rating (Some 0) (1 # 2) 0%nat).1 = Ok ([], one_rating) ∧
  (split_testing_set (G := counter_generator)
     one_rating (Some 0) 2 0%nat).1 =
    Raise (ValueError
             "Cannot take a larger sample than population when 'replace=False'") ∧
  ¬ (∀ (G : Generator), GeneratorLaws G →
       ∀ (test_df : DataFrame) (seed : option Z) (frac : Q) (g : rng) u r,
         (1 # 2 <= frac)%Q → rows_of u test_df = [r] →
         ∃ known heldout g',
           split_testing_set test_df seed frac g = (Ok (known, heldout), g') ∧
           rows_of u known = [r] ∧ rows_of u heldout = []) ∧
  round_of_float (times 0.5 1) = Ok 0 ∧
  (Binary64.split_testing_set (G := counter_generator)
     one_rating (Some 0) 0.5 0%nat).1 = Ok ([], one_rating) ∧
  ¬ (∀ (G : Generator), GeneratorLaws G →
       ∀ (test_df : DataFrame) (seed : option Z) (frac : float) (g : rng)
         (q : Q) u r,
         exact_value frac = DFinite q → (1 # 2 <= q)%Q →
         rows_of u test_df = [r] →
         ∃ known heldout g',
           Binary64.split_testing_set test_df seed frac g =
             (Ok (known, heldout), g') ∧
           rows_of u known = [r] ∧ rows_of u heldout = []).
Proof.
  split_and!;
    [reflexivity|reflexivity|reflexivity| |by vm_compute|by vm_compute|].
  - intros Hclaim.
    destruct (Hclaim counter_generator counter_generator_laws
                one_rating (Some 0) (1 # 2)%Q 0%nat "ann"
                (Row 0 "ann" 13 [("bgg_rating", "7")]))
      as (known & heldout & g' & Hrun & Hknown & _);
      [discriminate|reflexivity|].
    vm_compute in Hrun. injection Hrun as <- <- <-. discriminate Hknown.
  - intros Hclaim.
    destruct (Hclaim counter_generator counter_generator_laws
                one_rating (Some 0) 0.5%float 0%nat _ "ann"
                (Row 0 "ann" 13 [("bgg_rating", "7")]) eq_refl)
      as (known & heldout & g' & Hrun & Hknown & _);
      [by vm_compute|reflexivity|].
    vm_compute in Hrun. injection Hrun as <- <- <-. discriminate Hknown.
Qed.

(** C7. With the same explicit seed, two runs of [split_ratings_dataset]
    on the same table give the same result, whatever states the generator
    was in before the two runs; and likewise for [split_testing_set]. *)
Theorem seeded_runs_agree
    {G : Generator} (df : DataFrame) (s : Z) (frac : Q) (g1 g2 : rng) :
  split_ratings_dataset df (Some s) frac g1 =
    split_ratings_dataset df (Some s) frac g2 ∧
  split_testing_set df (Some s) frac g1 =
    split_testing_set df (Some s) frac g2.
Proof. split; reflexivity. Qed.

(** C10. On a table with no rows [split_testing_set] raises: there is no
    group, and [pd.concat] is given an empty list. *)
Theorem split_testing_set_empty_raises
    {G : Generator} (seed : option Z) (frac : Q) (g : rng) :
  (split_testing_set [] seed frac g).1 =
    Raise (ValueError "No objects to concatenate") ∧
  (split_testing_set [] seed frac g).1 ≠ Ok ([], []).
Proof.
  assert (Hgroups : groupby [] = []) by reflexivity.
  unfold split_testing_set. rewrite Hgroups.
  split; [reflexivity|discriminate].
Qed.

(** ** The store: what a call leaves alone *)

Module ImperativeFacts.
Import Imperative.

#[local] Abbreviation I := (SE world) (only parsing).

Section frame.
Context {G : Generator}.
Implicit Types (h : gmap ref object) (w : world) (l : ref).

Lemma keeps_ret {A} h (a : A) (post : A → Prop) :
  post a → keeps h (mret a) post.
Proof. intros Ha w Hw. split; [done|]. by intros ? [= <-]. Qed.

Lemma keeps_bind {A B} h (m : I A) (k : A → I B) (P : A → Prop)
    (Q : B → Prop) :
  keeps h m P → (∀ a, P a → keeps h (k a) Q) → keeps h (m ≫= k) Q.
Proof.
  intros Hm Hk w Hw. destruct (Hm w Hw) as [Hw' HP].
  unfold mbind, SE_bind. destruct (m w) as [[a|e] w']; simpl in *.
  - by apply Hk; [apply HP|].
  - split; [done|]. by intros.
Qed.

Lemma keeps_weaken {A} h (m : I A) (P Q : A → Prop) :
  keeps h m P → (∀ a, P a → Q a) → keeps h m Q.
Proof.
  intros Hm HPQ w Hw. destruct (Hm w Hw) as [Hw' HP]. split; [done|].
  intros a Ha. by apply HPQ, HP.
Qed.

Lemma keeps_lift {A} h (r : result A) : keeps h (lift r) (λ _, True).
Proof. intros w Hw. by split. Qed.

Lemma keeps_with_generator {A} h (m : SE rng A) :
  keeps h (with_generator m) (λ _, True).
Proof.
  intros w Hw. unfold with_generator. by destruct (m (generator w)).
Qed.

Lemma keeps_alloc h (o : object) : keeps h (alloc o) (fresh_for h).
Proof.
  intros w Hw. unfold alloc. simpl.
  assert (Hfresh : fresh (dom (heap w)) ∉ dom h).
  { intros Hin. apply (is_fresh (dom (heap w))).
    by apply (subseteq_dom h (heap w)). }
  split.
  - apply insert_subseteq_r; [|done]. by apply not_elem_of_dom.
  - by intros ? [= <-].
Qed.

Lemma keeps_store h l (o : object) :
  fresh_for h l → keeps h (store l o) (λ _, True).
Proof.
  intros Hl w Hw. unfold store. simpl. split; [|done].
  apply insert_subseteq_r; [|done]. by apply not_elem_of_dom.
Qed.

Lemma keeps_load_frame h l : keeps h (load_frame l) (λ _, True).
Proof.
  intros w Hw. unfold load_frame.
  by destruct (heap w !! l) as [[]|].
Qed.

Lemma keeps_load_games h l : keeps h (load_games l) (λ _, True).
Proof.
  intros w Hw. unfold load_games.
  by destruct (heap w !! l) as [[]|].
Qed.

Lemma keeps_load_joined h l : keeps h (load_joined l) (λ _, True).
Proof.
  intros w Hw. unfold load_joined.
  by destruct (heap w !! l) as [[]|].
Qed.

Lemma keeps_load_array h l : keeps h (load_array l) (λ _, True).
Proof.
  intros w Hw. unfold load_array.
  by destruct (heap w !! l) as [[]|].
Qed.

(** The shuffle writes, but only to an array the store did not hold. *)
Lemma keeps_shuffle_in_place h l :
  fresh_for h l → keeps h (shuffle_in_place l) (λ _, True).
Proof.
  intros Hl. unfold shuffle_in_place.
  eapply keeps_bind; [apply keeps_load_array|]. intros a _.
  eapply keeps_bind; [apply keeps_with_generator|]. intros a' _.
  by apply keeps_store.
Qed.
End frame.

#[local] Ltac keeps_step :=
  lazymatch goal with
  | |- keeps _ (mret _) _ => apply keeps_ret
  | |- keeps _ (alloc _ ≫= _) _ =>
      eapply keeps_bind; [apply keeps_alloc|]
  | |- keeps _ (load_frame _ ≫= _) _ =>
      eapply keeps_bind; [apply keeps_load_frame|]
  | |- keeps _ (load_games _ ≫= _) _ =>
      eapply keeps_bind; [apply keeps_load_games|]
  | |- keeps _ (load_joined _ ≫= _) _ =>
      eapply keeps_bind; [apply keeps_load_joined|]
  | |- keeps _ (load_array _ ≫= _) _ =>
      eapply keeps_bind; [apply keeps_load_array|]
  | |- keeps _ (with_generator _ ≫= _) _ =>
      eapply keeps_bind; [apply keeps_with_generator|]
  | |- keeps _ (lift _ ≫= _) _ =>
      eapply keeps_bind; [apply keeps_lift|]
  | |- keeps _ (shuffle_in_place _ ≫= _) _ =>
      eapply keeps_bind; [by apply keeps_shuffle_in_place|]
  end.

Section functions_keep.
Context {G : Generator}.
Implicit Types (h : gmap ref object) (l : ref).

Lemma split_ratings_dataset_keeps h ratings_df seed frac :
  keeps h (split_ratings_dataset ratings_df seed frac)
    (λ out, fresh_for h out.1 ∧ fresh_for h out.2).
Proof.
  unfold split_ratings_dataset.
  keeps_step; intros _ _. keeps_step; intros df _.
  keeps_step; intros users Husers. keeps_step; intros _ _.
  keeps_step; intros a _. keeps_step; intros df1 _.
  keeps_step; intros a1 _. keeps_step; intros train_df Htrain.
  keeps_step; intros df2 _. keeps_step; intros a2 _.
  eapply keeps_bind; [apply keeps_alloc|]. intros test_df Htest.
  by keeps_step.
Qed.

Lemma split_group_keeps h frac acc group :
  Forall (fresh_for h) acc.1 → Forall (fresh_for h) acc.2 →
  keeps h (split_group frac acc group)
    (λ acc', Forall (fresh_for h) acc'.1 ∧ Forall (fresh_for h) acc'.2).
Proof.
  destruct acc as [test_known test_unknown]. simpl. intros Hk Hu.
  unfold split_group.
  keeps_step; intros df _. keeps_step; intros rows _.
  keeps_step; intros known_indices _. keeps_step; intros rows1 _.
  keeps_step; intros known_rows _. keeps_step; intros known_data Hkd.
  keeps_step; intros rows2 _. keeps_step; intros unknown_rows _.
  keeps_step; intros unknown_data Hud.
  keeps_step. simpl. split; apply Forall_app; split; auto.
Qed.

Lemma split_groups_keeps h frac grouped :
  ∀ acc, Forall (fresh_for h) acc.1 → Forall (fresh_for h) acc.2 →
  keeps h (split_groups frac acc grouped)
    (λ acc', Forall (fresh_for h) acc'.1 ∧ Forall (fresh_for h) acc'.2).
Proof.
  induction grouped as [|[u group] grouped IH]; intros acc Hk Hu; simpl.
  - by apply keeps_ret.
  - eapply keeps_bind; [by apply split_group_keeps|].
    intros acc' [Hk' Hu']. by apply IH.
Qed.

Lemma load_frames_keeps h frames : keeps h (load_frames frames) (λ _, True).
Proof.
  induction frames as [|l frames IH]; simpl; [by apply keeps_ret|].
  keeps_step; intros df _.
  eapply keeps_bind; [apply IH|]. intros dfs _. by keeps_step.
Qed.

Lemma concat_frames_keeps h frames :
  keeps h (concat_frames frames) (fresh_for h).
Proof.
  unfold concat_frames.
  eapply keeps_bind; [apply load_frames_keeps|]. intros dfs _.
  keeps_step; intros df _. apply keeps_alloc.
Qed.

Lemma split_testing_set_keeps h test_df seed frac :
  keeps h (split_testing_set test_df seed frac)
    (λ out, fresh_for h out.1 ∧ fresh_for h out.2).
Proof.
  unfold split_testing_set.
  keeps_step; intros _ _. keeps_step; intros df _.
  eapply keeps_bind; [by apply split_groups_keeps|].
  intros [test_known test_unknown] _.
  eapply keeps_bind; [apply concat_frames_keeps|]. intros known Hknown.
  eapply keeps_bind; [apply concat_frames_keeps|]. intros unknown Hunknown.
  by keeps_step.
Qed.

Lemma coverage_keeps h top_n_df : keeps h (coverage top_n_df) (λ _, True).
Proof. unfold coverage. keeps_step; intros df _. by keeps_step. Qed.

Lemma diversity_keeps h top_n_df games_df criterions :
  keeps h (diversity top_n_df games_df criterions) (λ _, True).
Proof.
  unfold diversity.
  keeps_step; intros games _. keeps_step; intros selected _.
  keeps_step; intros games_df' _. keeps_step; intros recs _.
  keeps_step; intros top_n_df' _. keeps_step; intros recs' _.
  keeps_step; intros games' _. keeps_step; intros df _.
  keeps_step; intros joined _. keeps_step; intros d _.
  by keeps_step.
Qed.
End functions_keep.

End ImperativeFacts.

(** C9. A call of any of the four functions leaves every object that was
    in the store before the call as it was, the tables passed to it
    included, whether it returns or raises; the tables that
    [split_ratings_dataset] and [split_testing_set] return are new
    objects; [coverage] changes nothing at all. *)
Theorem calls_leave_inputs_unchanged
    {G : Generator} (w : Imperative.world) :
  (∀ ratings_df seed frac,
     let out := Imperative.split_ratings_dataset ratings_df seed frac w in
     Imperative.heap w ⊆ Imperative.heap out.2 ∧
     ∀ train test, out.1 = Ok (train, test) →
       Imperative.fresh_for (Imperative.heap w) train ∧
       Imperative.fresh_for (Imperative.heap w) test) ∧
  (∀ test_df seed frac,
     let out := Imperative.split_testing_set test_df seed frac w in
     Imperative.heap w ⊆ Imperative.heap out.2 ∧
     ∀ known unknown, out.1 = Ok (known, unknown) →
       Imperative.fresh_for (Imperative.heap w) known ∧
       Imperative.fresh_for (Imperative.heap w) unknown) ∧
  (∀ top_n_df, (Imperative.coverage top_n_df w).2 = w) ∧
  (∀ top_n_df games_df criterions,
     Imperative.heap w ⊆
       Imperative.heap (Imperative.diversity top_n_df games_df criterions w).2).
Proof.
  split_and!.
  - intros ratings_df seed frac out.
    destruct (ImperativeFacts.split_ratings_dataset_keeps
                (Imperative.heap w) ratings_df seed frac w) as [Hkeep Hout];
      [done|].
    split; [exact Hkeep|]. intros train test Hok. exact (Hout _ Hok).
  - intros test_df seed frac out.
    destruct (ImperativeFacts.split_testing_set_keeps
                (Imperative.heap w) test_df seed frac w) as [Hkeep Hout];
      [done|].
    split; [exact Hkeep|]. intros known unknown Hok. exact (Hout _ Hok).
  - intros top_n_df. unfold Imperative.coverage, Imperative.load_frame,
      mbind, SE_bind.
    by destruct (Imperative.heap w !! top_n_df) as [[]|].
  - intros top_n_df games_df criterions.
    by destruct (ImperativeFacts.diversity_keeps
                   (Imperative.heap w) top_n_df games_df criterions w).
Qed.

(** ** [diversity] *)

Lemma for_each_raise_only {A S} (body : S → A → result S) (E : exception)
    (l : list A) :
  (∀ s x e, body s x = Raise e → e = E) →
  ∀ s e, for_each body s l = Raise e → e = E.
Proof.
  intros Hbody. induction l as [|x l IH]; intros s e; simpl; [done|].
  destruct (body s x) as [s'|e'] eqn:Hx; simpl.
  - apply IH.
  - intros [= <-]. by eapply Hbody.
Qed.

Lemma for_each_raise_at {A S} (body : S → A → result S) (E : exception)
    (l : list A) (x : A) :
  (∀ s y e, body s y = Raise e → e = E) →
  x ∈ l → (∀ s, body s x = Raise E) →
  ∀ s, for_each body s l = Raise E.
Proof.
  intros Hbody Hx Hraise. induction l as [|y l IH]; intros s; simpl.
  - by apply elem_of_nil in Hx.
  - destruct (body s y) as [s'|e'] eqn:Hy; simpl.
    + apply elem_of_cons in Hx as [->|Hx]; [|by apply IH].
      by rewrite Hraise in Hy.
    + f_equal. by eapply Hbody.
Qed.

Lemma user_criterion_raise_only user_df d criterion e :
  user_criterion user_df d criterion = Raise e → e = hstack_error.
Proof.
  unfold user_criterion, np_hstack.
  destruct (dropna _); simpl; [by intros [= <-]|done].
Qed.

Lemma user_criterion_raises user_df d criterion :
  dropna (cell_of criterion <$> user_df) = [] →
  user_criterion user_df d criterion = Raise hstack_error.
Proof. unfold user_criterion. by intros ->. Qed.

Lemma diversity_loop_raises criterions df u c :
  u ∈ joined_user <$> df → c ∈ criterions →
  dropna (cell_of c <$> filter (λ jr, joined_user jr = u) df) = [] →
  diversity_loop criterions df = Raise hstack_error.
Proof.
  intros Hu Hc Hnone. unfold diversity_loop.
  apply (for_each_raise_at _ _ _
           (u, filter (λ jr, joined_user jr = u) df)).
  - intros d group e. apply for_each_raise_only.
    intros ???. apply user_criterion_raise_only.
  - unfold groupby_joined. apply list_elem_of_fmap. exists u.
    split; [done|]. by apply elem_of_np_unique_str.
  - intros d. simpl. apply (for_each_raise_at _ _ _ c); [|done|].
    + intros ???. apply user_criterion_raise_only.
    + intros d'. by apply user_criterion_raises.
Qed.

Lemma select_columns_ok criterions games_df :
  criterions ⊆ games_columns games_df →
  ∃ selected, select_columns criterions games_df = Ok selected ∧
    games_rows selected =
      (λ g, Game (game_id g)
              (filter (λ kv, kv.1 ∈ criterions) (attributes g)))
        <$> games_rows games_df.
Proof.
  intros Hsub. unfold select_columns. rewrite decide_True by done.
  by eexists.
Qed.

Lemma lookup_selected (criterions : list string) (m : gmap string cell) c :
  c ∈ criterions →
  filter (λ kv : string * cell, kv.1 ∈ criterions) m !! c = m !! c.
Proof.
  intros Hc. destruct (m !! c) as [x|] eqn:Hm.
  - by apply map_lookup_filter_Some.
  - apply map_lookup_filter_None. by left.
Qed.

Lemma elem_of_left_join top_n_df games jr :
  jr ∈ left_join top_n_df games ↔
  ∃ r, r ∈ top_n_df ∧
    ((filter (λ g, game_id g = bgg_id r) games = [] ∧ jr = Joined r ∅) ∨
     (∃ g, g ∈ games ∧ game_id g = bgg_id r ∧ jr = Joined r (attributes g))).
Proof.
  unfold left_join. rewrite list_elem_of_bind. split.
  - intros (r & Hjr & Hr). exists r. split; [done|].
    destruct (filter _ games) as [|g0 matches] eqn:Hm.
    + left. split; [done|]. by apply list_elem_of_singleton in Hjr.
    + right. apply list_elem_of_fmap in Hjr as (g & -> & Hg).
      rewrite <- Hm in Hg. apply list_elem_of_filter in Hg as [? ?].
      by exists g.
  - intros (r & Hr & [[Hm ->]|(g & Hg & Hid & ->)]); exists r;
      (split; [|done]).
    + rewrite Hm. by apply list_elem_of_singleton.
    + assert (g ∈ filter (λ g, game_id g = bgg_id r) games) as Hin
        by by apply list_elem_of_filter.
      destruct (filter _ games) as [|g0 matches]; [by apply elem_of_nil in Hin|].
      apply list_elem_of_fmap. by exists g.
Qed.

Lemma left_join_keeps_rows top_n_df games r :
  r ∈ top_n_df → ∃ jr, jr ∈ left_join top_n_df games ∧ recommendation jr = r.
Proof.
  intros Hr.
  destruct (filter (λ g, game_id g = bgg_id r) games) as [|g matches] eqn:Hm.
  - exists (Joined r ∅). split; [|done].
    apply elem_of_left_join. exists r. split; [done|]. by left.
  - assert (g ∈ filter (λ g, game_id g = bgg_id r) games) as Hg
      by (rewrite Hm; left).
    apply list_elem_of_filter in Hg as [Hid Hg].
    exists (Joined r (attributes g)). split; [|done].
    apply elem_of_left_join. exists r. split; [done|]. right. by exists g.
Qed.

Lemma dropna_nil (series : list cell) :
  Forall (λ x, x = None) series → dropna series = [].
Proof. induction 1 as [|? ? -> _ IH]; [done|]. exact IH. Qed.

Lemma item_labels_nil criterion item games g :
  item_labels criterion item games = [] → g ∈ games → game_id g = item →
  mjoin (attributes g !! criterion) = None.
Proof.
  unfold item_labels. intros Hnil Hg Hid.
  destruct (mjoin (attributes g !! criterion)) as [labels|] eqn:Hc; [|done].
  assert (labels ∈ omap (λ g, mjoin (attributes g !! criterion))
            (filter (λ g, game_id g = item) games)) as Hin.
  { apply list_elem_of_omap. exists g. split; [|done].
    by apply list_elem_of_filter. }
  rewrite Hnil in Hin. by apply elem_of_nil in Hin.
Qed.

(** C3, on the code. When some user has no label at all under some
    requested criterion (every recommended item is absent from the games
    table or has a missing cell there), [diversity] raises the
    [ValueError] of [np.hstack] on an empty sequence: it does not return,
    and that user contributes no count. *)
Theorem diversity_raises_without_labels
    (top_n_df : DataFrame) (games_df : GamesFrame) (criterions : list string)
    (u c : string) :
  criterions ⊆ games_columns games_df →
  c ∈ criterions →
  u ∈ bgg_user_name <$> top_n_df →
  no_labels c u top_n_df (games_rows games_df) →
  diversity top_n_df games_df criterions = Raise hstack_error.
Proof.
  intros Hcols Hc Hu Hnone. unfold diversity.
  destruct (select_columns_ok _ _ Hcols) as (selected & -> & Hrows).
  simpl. rewrite Hrows.
  set (games := (λ g, Game (game_id g) _) <$> games_rows games_df).
  rewrite (diversity_loop_raises criterions _ u c); [done| |done|].
  - apply list_elem_of_fmap in Hu as (r & -> & Hr).
    destruct (left_join_keeps_rows (select_user_item top_n_df) games
                (Row (index_label r) (bgg_user_name r) (bgg_id r) []))
      as (jr & Hjr & Hrec).
    { unfold select_user_item. apply list_elem_of_fmap. by exists r. }
    apply list_elem_of_fmap. exists jr. split; [|done].
    unfold joined_user. by rewrite Hrec.
  - apply dropna_nil, Forall_fmap, Forall_forall. intros jr Hjr. simpl.
    apply list_elem_of_filter in Hjr as [Hjru Hjr].
    apply elem_of_left_join in Hjr
      as (r' & Hr' & [[_ ->]|(g' & Hg' & Hid & ->)]); [done|].
    unfold select_user_item in Hr'.
    apply list_elem_of_fmap in Hr' as (r & -> & Hr).
    apply list_elem_of_fmap in Hg' as (g & -> & Hg).
    unfold cell_of. simpl in *. rewrite lookup_selected by done.
    apply (item_labels_nil c (bgg_id r) (games_rows games_df)); [|done..].
    by apply Hnone.
Qed.

Lemma diversity_raises_without_labels_witness :
  ["category"] ⊆ games_columns games_example ∧
  "category" ∈ ["category"] ∧
  "ben" ∈ bgg_user_name <$> top_n_unknown_item ∧
  no_labels "category" "ben" top_n_unknown_item (games_rows games_example) ∧
  diversity top_n_unknown_item games_example ["category"] = Raise hstack_error.
Proof.
  assert (H1 : ["category"] ⊆ games_columns games_example)
    by (intros c ->%list_elem_of_singleton; left).
  assert (H2 : "category" ∈ ["category"]) by left.
  assert (H3 : "ben" ∈ bgg_user_name <$> top_n_unknown_item)
    by (do 2 right; left).
  assert (H4 : no_labels "category" "ben" top_n_unknown_item
                 (games_rows games_example)).
  { intros r Hr Hu. unfold top_n_unknown_item, top_n_example in Hr. simpl in Hr.
    repeat (apply elem_of_cons in Hr as [->|Hr]; [try discriminate Hu|]).
    - reflexivity.
    - by apply elem_of_nil in Hr. }
  split_and!; [done..|].
  exact (diversity_raises_without_labels top_n_unknown_item games_example
           ["category"] "ben" "category" H1 H2 H3 H4).
Defined.

(** *** What [diversity] returns when every user has labels *)

Lemma elem_of_concat {A} (x : A) (ls : list (list A)) :
  x ∈ concat ls ↔ ∃ l, x ∈ l ∧ l ∈ ls.
Proof.
  induction ls as [|l ls IH]; simpl.
  - split; [by intros ?%elem_of_nil|]. by intros (? & _ & ?%elem_of_nil).
  - rewrite elem_of_app, IH. split.
    + intros [?|(l' & ? & ?)]; [exists l|exists l']; set_solver.
    + intros (l' & ? & [->|?]%elem_of_cons); [by left|right; by exists l'].
Qed.

(** The non-missing cells of a user's group in the joined table are the
    label collections of the items recommended to that user. *)
Lemma elem_of_group_cells (criterions : list string) (c u : string)
    (top_n_df : DataFrame) (games : list game) (labels : list string) :
  c ∈ criterions →
  labels ∈ dropna (cell_of c <$> filter (λ jr, joined_user jr = u)
             (left_join (select_user_item top_n_df)
                ((λ g, Game (game_id g)
                         (filter (λ kv, kv.1 ∈ criterions) (attributes g)))
                   <$> games))) ↔
  labels ∈ labels_of c u top_n_df games.
Proof.
  intros Hc. unfold dropna, labels_of, item_labels.
  rewrite list_elem_of_omap, list_elem_of_bind. split.
  - intros (x & Hx & Hid). simpl in Hid. subst x.
    apply list_elem_of_fmap in Hx as (jr & Hcell & Hjr).
    apply list_elem_of_filter in Hjr as [Hu Hjr].
    apply elem_of_left_join in Hjr
      as (r' & Hr' & [[_ ->]|(g' & Hg' & Hid & ->)]); [done|].
    apply list_elem_of_fmap in Hr' as (r & -> & Hr).
    apply list_elem_of_fmap in Hg' as (g & -> & Hg).
    unfold cell_of in Hcell. simpl in *.
    rewrite lookup_selected in Hcell by done.
    exists r. split; [|by apply list_elem_of_filter].
    apply list_elem_of_omap. exists g. split; [|done].
    by apply list_elem_of_filter.
  - intros (r & Hlabels & Hr).
    apply list_elem_of_filter in Hr as [Hu Hr].
    apply list_elem_of_omap in Hlabels as (g & Hg & Hcell).
    apply list_elem_of_filter in Hg as [Hid Hg].
    exists (Some labels). split; [|done].
    apply list_elem_of_fmap.
    exists (Joined (Row (index_label r) (bgg_user_name r) (bgg_id r) [])
              (filter (λ kv, kv.1 ∈ criterions) (attributes g))).
    split.
    + unfold cell_of. simpl. by rewrite lookup_selected.
    + apply list_elem_of_filter. split; [done|].
      apply elem_of_left_join. eexists. split.
      * apply list_elem_of_fmap. by exists r.
      * right. eexists (Game _ _). split; [|done].
        apply list_elem_of_fmap. by exists g.
Qed.

Lemma group_count_distinct_labels (criterions : list string) (c u : string)
    (top_n_df : DataFrame) (games : list game) :
  c ∈ criterions →
  group_count c (filter (λ jr, joined_user jr = u)
    (left_join (select_user_item top_n_df)
       ((λ g, Game (game_id g)
                (filter (λ kv, kv.1 ∈ criterions) (attributes g)))
          <$> games))) =
  distinct_labels c u top_n_df games.
Proof.
  intros Hc. unfold group_count, distinct_labels.
  rewrite length_np_unique_str, length_unique_size. f_equal.
  apply set_eq. intros l. rewrite !elem_of_list_to_set, !elem_of_concat.
  by setoid_rewrite (elem_of_group_cells criterions c u top_n_df games _ Hc).
Qed.

Lemma user_criterion_ok (user_df : list joined_row)
    (d : gmap string (list nat)) (c : string) :
  dropna (cell_of c <$> user_df) ≠ [] →
  user_criterion user_df d c =
    Ok (<[c := (d !!! c) ++ [group_count c user_df]]> d).
Proof.
  intros Hne. unfold user_criterion, np_hstack, group_count.
  by destruct (dropna _).
Qed.

Lemma criterion_loop_ok (user_df : list joined_row)
    (criterions : list string) :
  NoDup criterions →
  (∀ c, c ∈ criterions → dropna (cell_of c <$> user_df) ≠ []) →
  ∀ d, ∃ d',
    for_each (user_criterion user_df) d criterions = Ok d' ∧
    (∀ c, c ∈ criterions → d' !!! c = d !!! c ++ [group_count c user_df]) ∧
    (∀ c, c ∉ criterions → d' !!! c = d !!! c).
Proof.
  induction 1 as [|c0 criterions Hc0 Hnd IH]; intros Hne d.
  - exists d. split_and!; [done| |done]. by intros ? ?%elem_of_nil.
  - simpl. rewrite user_criterion_ok by (apply Hne; left). simpl.
    destruct (IH (λ c Hc, Hne c (list_elem_of_further _ _ _ Hc))
                (<[c0 := (d !!! c0) ++ [group_count c0 user_df]]> d))
      as (d' & Hrun & Hin & Hout).
    exists d'. split_and!; [done| |].
    + intros c [->|Hc]%elem_of_cons.
      * by rewrite Hout, lookup_total_insert_eq.
      * rewrite Hin by done. rewrite lookup_total_insert_ne; [done|].
        by intros ->.
    + intros c [Hne0 Hc]%not_elem_of_cons.
      rewrite Hout by done. by rewrite lookup_total_insert_ne.
Qed.

Lemma user_loop_ok (criterions : list string)
    (groups : list (string * list joined_row)) :
  NoDup criterions →
  (∀ group c, group ∈ groups → c ∈ criterions →
     dropna (cell_of c <$> group.2) ≠ []) →
  ∀ d, ∃ d',
    for_each (λ d group, for_each (user_criterion group.2) d criterions)
      d groups = Ok d' ∧
    ∀ c, c ∈ criterions →
      d' !!! c = d !!! c ++ ((λ group, group_count c group.2) <$> groups).
Proof.
  intros Hnd. induction groups as [|group groups IH]; intros Hne d.
  - exists d. split; [done|]. intros c _. by rewrite app_nil_r.
  - destruct (criterion_loop_ok group.2 criterions Hnd
                (λ c Hc, Hne group c (list_elem_of_here _ _) Hc) d)
      as (d1 & Hrun1 & Hin1 & _).
    destruct (IH (λ g c Hg Hc, Hne g c (list_elem_of_further _ _ _ Hg) Hc) d1)
      as (d' & Hrun & Hin).
    exists d'. split.
    + simpl. by rewrite Hrun1.
    + intros c Hc. rewrite Hin, Hin1 by done.
      by rewrite <- app_assoc.
Qed.

Lemma np_mean_Permutation (l1 l2 : list nat) :
  l1 ≡ₚ l2 → np_mean l1 = np_mean l2.
Proof.
  intros Hp. unfold np_mean.
  destruct l1 as [|x1 l1], l2 as [|x2 l2]; [done| | |].
  - by apply Permutation_nil_cons in Hp.
  - symmetry in Hp. by apply Permutation_nil_cons in Hp.
  - assert (Hs : sum_list (x1 :: l1) = sum_list (x2 :: l2))
      by (by rewrite Hp).
    assert (Hl : length (x1 :: l1) = length (x2 :: l2)) by by rewrite Hp.
    by rewrite Hs, Hl.
Qed.

Lemma mean_of_lookup (criterions : list string) (d : gmap string (list nat))
    (c : string) :
  c ∈ criterions → mean_of criterions d !! c = Some (np_mean (d !!! c)).
Proof.
  unfold mean_of. intros Hc.
  assert (Hgen : ∀ m : gmap string np_float,
    foldl (λ mean_diversity criterion,
             <[criterion := np_mean (d !!! criterion)]> mean_diversity)
      m criterions !! c =
    if decide (c ∈ criterions) then Some (np_mean (d !!! c)) else m !! c).
  { clear Hc. induction criterions as [|c0 criterions IH]; intros m;
      cbn [foldl].
    - case_decide as Hin; [by apply elem_of_nil in Hin|done].
    - rewrite IH. repeat case_decide; try done.
      + exfalso. set_solver.
      + destruct (decide (c = c0)) as [->|Hne].
        * by rewrite lookup_insert_eq.
        * exfalso. set_solver.
      + rewrite lookup_insert_ne; [done|]. set_solver. }
  rewrite Hgen. by rewrite decide_True.
Qed.

(** The run of [diversity] when every user has labels: the per-user
    counts gathered for a criterion average to the mean of the users'
    distinct-label counts. *)
Lemma diversity_values
    (top_n_df : DataFrame) (games_df : GamesFrame) (criterions : list string) :
  criterions ⊆ games_columns games_df →
  NoDup criterions →
  (∀ u c, u ∈ bgg_user_name <$> top_n_df → c ∈ criterions →
     has_labels c u top_n_df (games_rows games_df)) →
  ∃ d : gmap string (list nat),
    diversity top_n_df games_df criterions = Ok (mean_of criterions d) ∧
    ∀ c, c ∈ criterions →
      np_mean (d !!! c) =
        np_mean ((λ u, distinct_labels c u top_n_df (games_rows games_df))
                   <$> np_unique_str (bgg_user_name <$> top_n_df)).
Proof.
  intros Hcols Hnd Hlabels. unfold diversity.
  destruct (select_columns_ok _ _ Hcols) as (selected & -> & Hrows).
  simpl. rewrite Hrows.
  set (games := (λ g, Game (game_id g) _) <$> games_rows games_df).
  set (df := left_join (select_user_item top_n_df) games).
  assert (Hkeys : ∀ u, u ∈ joined_user <$> df ↔ u ∈ bgg_user_name <$> top_n_df).
  { intros u. rewrite !list_elem_of_fmap. split.
    - intros (jr & -> & Hjr).
      apply elem_of_left_join in Hjr as (r' & Hr' & Hjr).
      apply list_elem_of_fmap in Hr' as (r & -> & Hr).
      exists r. split; [|done].
      by destruct Hjr as [[_ ->]|(g & _ & _ & ->)].
    - intros (r & -> & Hr).
      destruct (left_join_keeps_rows (select_user_item top_n_df) games
                  (Row (index_label r) (bgg_user_name r) (bgg_id r) []))
        as (jr & Hjr & Hrec).
      { apply list_elem_of_fmap. by exists r. }
      exists jr. split; [|done]. unfold joined_user. by rewrite Hrec. }
  assert (Hsame : np_unique_str (joined_user <$> df) ≡ₚ
                  np_unique_str (bgg_user_name <$> top_n_df)).
  { apply NoDup_Permutation; [apply NoDup_np_unique_str..|].
    intros u. rewrite !elem_of_np_unique_str. apply Hkeys. }
  destruct (user_loop_ok criterions (groupby_joined df) Hnd)
    with (d := ∅ : gmap string (list nat)) as (d & Hrun & Hd).
  { intros [u group] c Hgroup Hc. unfold groupby_joined in Hgroup.
    apply list_elem_of_fmap in Hgroup as (u' & [= -> ->] & Hu').
    apply elem_of_np_unique_str, Hkeys in Hu'. simpl.
    intros Hnil. apply (Hlabels u' c Hu' Hc).
    destruct (labels_of c u' top_n_df (games_rows games_df))
      as [|labels rest] eqn:Hl; [done|].
    assert (labels ∈ labels_of c u' top_n_df (games_rows games_df)) as Hin
      by (rewrite Hl; left).
    apply (elem_of_group_cells criterions c u' top_n_df _ _ Hc) in Hin.
    fold games df in Hin. rewrite Hnil in Hin. by apply elem_of_nil in Hin. }
  unfold diversity_loop. rewrite Hrun. simpl.
  exists d. split; [done|]. intros c Hc.
  rewrite Hd by done. rewrite lookup_total_empty. simpl.
  unfold groupby_joined. rewrite <- list_fmap_compose.
  rewrite <- (np_mean_Permutation _ _ (fmap_Permutation _ _ _ Hsame)).
  f_equal. apply list_fmap_ext. intros _ u _. simpl.
  by apply (group_count_distinct_labels criterions).
Qed.

(** X11. When the criteria are distinct columns of the games table,
    none of them named ['bgg_id'] or ['bgg_user_name'], and every user has
    a label collection under every criterion, [diversity] returns, for
    each criterion, the mean over the users of the number of distinct
    labels of the items recommended to the user. (A criterion named as a
    key column makes pandas refuse the selection or the join, and a
    repeated criterion selects two columns at once.) *)
Lemma diversity_mean_of_distinct_labels
    (top_n_df : DataFrame) (games_df : GamesFrame) (criterions : list string) :
  criterions ⊆ games_columns games_df →
  NoDup criterions →
  no_key_column criterions →
  (∀ u c, u ∈ bgg_user_name <$> top_n_df → c ∈ criterions →
     has_labels c u top_n_df (games_rows games_df)) →
  ∃ mean_diversity,
    diversity top_n_df games_df criterions = Ok mean_diversity ∧
    ∀ c, c ∈ criterions →
      mean_diversity !! c =
        Some (np_mean ((λ u, distinct_labels c u top_n_df (games_rows games_df))
                         <$> np_unique_str (bgg_user_name <$> top_n_df))).
Proof.
  intros Hcols Hnd _ Hlabels.
  destruct (diversity_values top_n_df games_df criterions Hcols Hnd Hlabels)
    as (d & Hrun & Hd).
  exists (mean_of criterions d). split; [done|]. intros c Hc.
  rewrite mean_of_lookup by done. f_equal. by apply Hd.
Qed.

(** C4, on the code. For one user recommended the two games of
    [games_example], with categories {A, B} and {B, C}, the mean diversity
    under ['category'] is 3. With a second user whose only recommended
    item is absent from the games table, the mean of 3 and 0 is not
    returned: the call raises. *)
Theorem diversity_example_and_unknown_item :
  diversity top_n_example games_example ["category"] =
    Ok {[ "category" := finite 3 ]} ∧
  distinct_labels "category" "ann" top_n_unknown_item
    (games_rows games_example) = 3%nat ∧
  distinct_labels "category" "ben" top_n_unknown_item
    (games_rows games_example) = 0%nat ∧
  diversity top_n_unknown_item games_example ["category"] = Raise hstack_error.
Proof. split_and!; by vm_compute. Qed.

(** ** The store: the same results as the functions on values *)

Module ImperativeRefines.

#[local] Abbreviation world := Imperative.world.
#[local] Abbreviation heap := Imperative.heap.
#[local] Abbreviation generator := Imperative.generator.
#[local] Abbreviation ref := Imperative.ref.
#[local] Abbreviation ODataFrame := Imperative.ODataFrame.
#[local] Abbreviation OArray := Imperative.OArray.
#[local] Abbreviation OGames := Imperative.OGames.
#[local] Abbreviation OJoined := Imperative.OJoined.
#[local] Abbreviation points_to := Imperative.points_to.
#[local] Abbreviation points_to_both := Imperative.points_to_both.
#[local] Abbreviation extends := Imperative.extends.
#[local] Abbreviation agrees := Imperative.agrees.

Section refines.
Context {G : Generator}.
Implicit Types (w : world) (l : ref) (df : DataFrame).

Lemma load_frame_ok w l df :
  heap w !! l = Some (ODataFrame df) → Imperative.load_frame l w = (Ok df, w).
Proof. unfold Imperative.load_frame. by intros ->. Qed.

Lemma lookup_after_alloc w l (o o' : Imperative.object) :
  heap w !! l = Some o →
  <[fresh (dom (heap w)) := o']> (heap w) !! l = Some o.
Proof.
  intros Hl. rewrite lookup_insert_ne; [done|]. intros <-.
  apply (is_fresh (dom (heap w))). apply elem_of_dom. by eexists.
Qed.

Lemma alloc_run w (o : Imperative.object) :
  ∃ l w', Imperative.alloc o w = (Ok l, w') ∧
    heap w' !! l = Some o ∧ generator w' = generator w ∧
    (∀ l' o', heap w !! l' = Some o' → heap w' !! l' = Some o').
Proof.
  eexists _, _. split; [reflexivity|]. simpl. split_and!.
  - apply lookup_insert_eq.
  - done.
  - intros l' o' Hl'. by apply lookup_after_alloc.
Qed.

Lemma load_array_ok w l a :
  heap w !! l = Some (OArray a) → Imperative.load_array l w = (Ok a, w).
Proof. unfold Imperative.load_array. by intros ->. Qed.

Lemma fresh_ne w l (o : Imperative.object) :
  heap w !! l = Some o → fresh (dom (heap w)) ≠ l.
Proof.
  intros Hl Heq. apply (is_fresh (dom (heap w))). rewrite Heq.
  apply elem_of_dom. by eexists.
Qed.

Lemma shuffle_in_place_run w l a :
  heap w !! l = Some (OArray a) →
  Imperative.shuffle_in_place l w =
    (Ok (), Imperative.World
              (<[l := OArray (np_random_shuffle (generator w) a).1]> (heap w))
              (np_random_shuffle (generator w) a).2).
Proof.
  intros Hl. unfold Imperative.shuffle_in_place.
  rewrite (bind_ok _ _ _ _ _ (load_array_ok _ _ _ Hl)).
  unfold Imperative.with_generator, shuffle, Imperative.store, mbind, SE_bind.
  by destruct (np_random_shuffle (generator w) a).
Qed.

(** [split_ratings_dataset] on a reference to [df] returns references to
    the two tables that the function on values returns for [df], leaves
    the generator in the same state, and still finds [df] under the
    reference it was given. *)
Lemma split_ratings_dataset_refines w ratings_df df seed frac :
  heap w !! ratings_df = Some (ODataFrame df) →
  ∃ train test train_df test_df w',
    split_ratings_dataset df seed frac (generator w) =
      (Ok (train, test), generator w') ∧
    Imperative.split_ratings_dataset ratings_df seed frac w =
      (Ok (train_df, test_df), w') ∧
    heap w' !! train_df = Some (ODataFrame train) ∧
    heap w' !! test_df = Some (ODataFrame test) ∧
    heap w' !! ratings_df = Some (ODataFrame df).
Proof.
  intros Hdf. unfold Imperative.split_ratings_dataset.
  set (g0 := from_option np_random_seed (generator w) seed).
  set (w1 := Imperative.World (heap w) g0).
  assert (H1 : Imperative.with_generator (seed_if_given seed) w = (Ok (), w1))
    by reflexivity.
  rewrite (bind_ok _ _ _ _ _ H1).
  rewrite (bind_ok _ _ _ _ _ (load_frame_ok w1 _ _ Hdf)).
  destruct (alloc_run w1 (OArray (unique (bgg_user_name <$> df))))
    as (users & w2 & Halloc & Husers & Hg2 & Hkeep2).
  rewrite (bind_ok _ _ _ _ _ Halloc).
  rewrite (bind_ok _ _ _ _ _ (shuffle_in_place_run w2 _ _ Husers)).
  rewrite Hg2. simpl generator.
  set (shuffled := np_random_shuffle g0 (unique (bgg_user_name <$> df))).
  set (w3 := Imperative.World (<[users := OArray shuffled.1]> (heap w2))
               shuffled.2).
  assert (Hne : users ≠ ratings_df).
  { intros ->. apply Hkeep2 in Hdf. simpl in Hdf. congruence. }
  assert (Hdf3 : heap w3 !! ratings_df = Some (ODataFrame df)).
  { simpl. rewrite lookup_insert_ne by done. by apply Hkeep2. }
  assert (Hu3 : heap w3 !! users = Some (OArray shuffled.1))
    by apply lookup_insert_eq.
  rewrite (bind_ok _ _ _ _ _ (load_array_ok w3 _ _ Hu3)).
  rewrite (bind_ok _ _ _ _ _ (load_frame_ok w3 _ _ Hdf3)).
  rewrite (bind_ok _ _ _ _ _ (load_array_ok w3 _ _ Hu3)).
  set (train_size := py_int (scale frac (length shuffled.1))).
  destruct (alloc_run w3
              (ODataFrame (select_isin df (slice_to shuffled.1 train_size))))
    as (train_df & w4 & Halloc4 & Htrain & Hg4 & Hkeep4).
  rewrite (bind_ok _ _ _ _ _ Halloc4).
  rewrite (bind_ok _ _ _ _ _ (load_frame_ok w4 _ _ (Hkeep4 _ _ Hdf3))).
  rewrite (bind_ok _ _ _ _ _ (load_array_ok w4 _ _ (Hkeep4 _ _ Hu3))).
  destruct (alloc_run w4
              (ODataFrame (select_isin df (slice_from shuffled.1 train_size))))
    as (test_df & w5 & Halloc5 & Htest & Hg5 & Hkeep5).
  rewrite (bind_ok _ _ _ _ _ Halloc5).
  eexists _, _, train_df, test_df, w5. split_and!; [|reflexivity|eauto..].
  rewrite Hg5, Hg4. simpl.
  unfold split_ratings_dataset, seed_if_given, shuffle, mbind, SE_bind,
    mret, SE_ret. fold g0 shuffled.
  by destruct shuffled.
Qed.

Lemma points_to_extends w w' refs frames :
  extends w w' → points_to w refs frames → points_to w' refs frames.
Proof.
  intros Hext Hrefs. eapply Forall2_impl; [exact Hrefs|].
  intros l frame. apply Hext.
Qed.

Lemma extends_trans w1 w2 w3 : extends w1 w2 → extends w2 w3 → extends w1 w3.
Proof. intros H12 H23 l o Hl. by apply H23, H12. Qed.

Lemma with_generator_run {A} (m : SE rng A) w :
  Imperative.with_generator m w =
    ((m (generator w)).1, Imperative.World (heap w) (m (generator w)).2).
Proof. unfold Imperative.with_generator. by destruct (m (generator w)). Qed.

Lemma split_group_refines frac w refs frames group :
  points_to_both w refs frames →
  agrees points_to_both w
    (Imperative.split_group frac refs group w)
    (split_group frac frames group (generator w)).
Proof.
  destruct refs as [rk ru], frames as [fk fu]. intros [Hk Hu]. simpl in *.
  unfold Imperative.split_group, split_group.
  destruct (alloc_run w (ODataFrame group))
    as (ldf & w1 & Ha & Hldf & Hg1 & Hkeep1).
  rewrite (bind_ok _ _ _ _ _ Ha), (bind_ok _ _ _ _ _ (load_frame_ok w1 _ _ Hldf)).
  set (n := length group). set (k := py_round (scale frac n)).
  pose proof (with_generator_run (choice n k) w1) as Hwg.
  rewrite Hg1 in Hwg.
  destruct (choice n k (generator w)) as [[chosen|e] g1] eqn:Hchoice;
    simpl in Hwg.
  2: { rewrite (bind_raise _ _ _ _ _ Hwg), (bind_raise _ _ _ _ _ Hchoice).
       by split_and!. }
  rewrite (bind_ok _ _ _ _ _ Hwg), (bind_ok _ _ _ _ _ Hchoice).
  set (w2 := Imperative.World (heap w1) g1).
  rewrite (bind_ok _ _ _ _ _ (load_frame_ok w2 _ _ Hldf)).
  destruct (iloc group chosen) as [known_rows|e] eqn:Hknown.
  2: { repeat rewrite lift_raise_bind. by split_and!. }
  repeat rewrite lift_ok_bind.
  destruct (alloc_run w2 (ODataFrame known_rows))
    as (lk & w3 & Ha3 & Hlk & Hg3 & Hkeep3).
  rewrite (bind_ok _ _ _ _ _ Ha3).
  rewrite (bind_ok _ _ _ _ _ (load_frame_ok w3 _ _ (Hkeep3 _ _ Hldf))).
  destruct (iloc group (np_setdiff1d (np_arange n) chosen))
    as [unknown_rows|e] eqn:Hunknown.
  2: { repeat rewrite lift_raise_bind. split_and!; [|done..].
       intros l o Hl. by apply Hkeep3, Hkeep1. }
  repeat rewrite lift_ok_bind.
  destruct (alloc_run w3 (ODataFrame unknown_rows))
    as (lu & w4 & Ha4 & Hlu & Hg4 & Hkeep4).
  rewrite (bind_ok _ _ _ _ _ Ha4).
  assert (Hext : extends w w4).
  { intros l o Hl. by apply Hkeep4, Hkeep3, Hkeep1. }
  split_and!; simpl; [done|by rewrite Hg4, Hg3|].
  eexists. split; [reflexivity|]. split; simpl.
  - apply Forall2_app; [by apply (points_to_extends w)|].
    constructor; [|constructor]. by apply Hkeep4.
  - apply Forall2_app; [by apply (points_to_extends w)|].
    by constructor; [|constructor].
Qed.

Lemma split_groups_refines frac grouped :
  ∀ w refs frames,
    points_to_both w refs frames →
    agrees points_to_both w
      (Imperative.split_groups frac refs grouped w)
      (split_groups frac frames grouped (generator w)).
Proof.
  induction grouped as [|[u group] grouped IH]; intros w refs frames Hrefs.
  - split; [by intros l o|]. split; [done|]. by exists refs.
  - cbn [Imperative.split_groups split_groups].
    destruct (split_group_refines frac w refs frames group Hrefs)
      as (Hext & Hgen & Hres).
    destruct (Imperative.split_group frac refs group w) as [ri w1] eqn:Hi.
    destruct (split_group frac frames group (generator w)) as [rf g1] eqn:Hf.
    simpl in *. subst g1. destruct rf as [frames1|e].
    + destruct Hres as (refs1 & -> & Hrefs1).
      rewrite (bind_ok _ _ _ _ _ Hi), (bind_ok _ _ _ _ _ Hf).
      destruct (IH w1 refs1 frames1 Hrefs1) as (Hext' & Hgen' & Hres').
      split_and!; [by eapply extends_trans|done..].
    + subst ri. rewrite (bind_raise _ _ _ _ _ Hi), (bind_raise _ _ _ _ _ Hf).
      by split_and!.
Qed.

Lemma load_frames_run w refs frames :
  points_to w refs frames → Imperative.load_frames refs w = (Ok frames, w).
Proof.
  induction 1 as [|l frame refs frames Hl _ IH]; [done|].
  cbn [Imperative.load_frames].
  rewrite (bind_ok _ _ _ _ _ (load_frame_ok w _ _ Hl)).
  by rewrite (bind_ok _ _ _ _ _ IH).
Qed.

Lemma concat_frames_refines w refs frames :
  points_to w refs frames →
  ∃ w', extends w w' ∧ generator w' = generator w ∧
    match pd_concat frames with
    | Ok df => ∃ l, Imperative.concat_frames refs w = (Ok l, w') ∧
                 heap w' !! l = Some (ODataFrame df)
    | Raise e => Imperative.concat_frames refs w = (Raise e, w')
    end.
Proof.
  intros Hrefs. unfold Imperative.concat_frames.
  rewrite (bind_ok _ _ _ _ _ (load_frames_run w _ _ Hrefs)).
  destruct (pd_concat frames) as [df|e].
  - destruct (alloc_run w (ODataFrame df)) as (l & w' & Ha & Hl & Hg & Hkeep).
    exists w'. split; [exact Hkeep|]. split; [exact Hg|].
    exists l. split; [|done]. by rewrite lift_ok_bind.
  - exists w. split; [by intros l o|]. split; [done|].
    by rewrite lift_raise_bind.
Qed.

(** [split_testing_set] on a reference to [df] raises what the function
    on values raises for [df], or returns references to the two tables it
    returns. *)
Lemma split_testing_set_refines w test_df df seed frac :
  heap w !! test_df = Some (ODataFrame df) →
  agrees (λ w' refs frames,
            heap w' !! refs.1 = Some (ODataFrame frames.1) ∧
            heap w' !! refs.2 = Some (ODataFrame frames.2) ∧
            heap w' !! test_df = Some (ODataFrame df)) w
    (Imperative.split_testing_set test_df seed frac w)
    (split_testing_set df seed frac (generator w)).
Proof.
  intros Hdf. unfold Imperative.split_testing_set, split_testing_set.
  set (g0 := from_option np_random_seed (generator w) seed).
  set (w1 := Imperative.World (heap w) g0).
  assert (H1 : Imperative.with_generator (seed_if_given seed) w = (Ok (), w1))
    by reflexivity.
  assert (H1' : seed_if_given seed (generator w) = (Ok (), g0)) by reflexivity.
  rewrite (bind_ok _ _ _ _ _ H1), (bind_ok _ _ _ _ _ H1').
  rewrite (bind_ok _ _ _ _ _ (load_frame_ok w1 _ _ Hdf)).
  destruct (split_groups_refines frac (groupby df) w1 ([], []) ([], []))
    as (Hext & Hgen & Hres); [by split; constructor|].
  destruct (Imperative.split_groups frac ([], []) (groupby df) w1)
    as [ri w2] eqn:Hi.
  change (generator w1) with g0 in *.
  destruct (split_groups frac ([], []) (groupby df) g0) as [rf g2] eqn:Hf.
  simpl in *. subst g2. destruct rf as [[fk fu]|e].
  2: { subst ri. rewrite (bind_raise _ _ _ _ _ Hi), (bind_raise _ _ _ _ _ Hf).
       by split_and!. }
  destruct Hres as ([rk ru] & -> & Hk & Hu). simpl in *.
  rewrite (bind_ok _ _ _ _ _ Hi), (bind_ok _ _ _ _ _ Hf).
  destruct (concat_frames_refines w2 rk fk Hk) as (w3 & Hext3 & Hg3 & Hck).
  destruct (pd_concat fk) as [known|e].
  2: { rewrite (bind_raise _ _ _ _ _ Hck), lift_raise_bind.
       split_and!; [by eapply extends_trans|done..]. }
  destruct Hck as (lk & Hck & Hlk).
  rewrite (bind_ok _ _ _ _ _ Hck), lift_ok_bind.
  destruct (concat_frames_refines w3 ru fu (points_to_extends _ _ _ _ Hext3 Hu))
    as (w4 & Hext4 & Hg4 & Hcu).
  destruct (pd_concat fu) as [unknown|e].
  2: { rewrite (bind_raise _ _ _ _ _ Hcu), lift_raise_bind.
       split_and!; [|simpl; congruence|done].
       by eapply extends_trans; [eapply extends_trans|]. }
  destruct Hcu as (lu & Hcu & Hlu).
  rewrite (bind_ok _ _ _ _ _ Hcu), lift_ok_bind.
  split_and!; simpl.
  - by eapply extends_trans; [eapply extends_trans|].
  - congruence.
  - exists (lk, lu). split; [done|]. simpl. split_and!; [by apply Hext4|done|].
    by apply Hext4, Hext3, Hext.
Qed.

Lemma coverage_refines w top_n_df df :
  heap w !! top_n_df = Some (ODataFrame df) →
  Imperative.coverage top_n_df w = (Ok (coverage df), w).
Proof.
  intros Hdf. unfold Imperative.coverage.
  by rewrite (bind_ok _ _ _ _ _ (load_frame_ok w _ _ Hdf)).
Qed.

Lemma load_games_ok w l games :
  heap w !! l = Some (OGames games) → Imperative.load_games l w = (Ok games, w).
Proof. unfold Imperative.load_games. by intros ->. Qed.

Lemma load_joined_ok w l joined :
  heap w !! l = Some (OJoined joined) →
  Imperative.load_joined l w = (Ok joined, w).
Proof. unfold Imperative.load_joined. by intros ->. Qed.

(** [diversity] on references to a recommendation table and a games table
    returns or raises what the function on values does for the two
    tables. *)
Lemma diversity_refines w top_n_df games_df recs games criterions :
  heap w !! top_n_df = Some (ODataFrame recs) →
  heap w !! games_df = Some (OGames games) →
  ∃ w', Imperative.diversity top_n_df games_df criterions w =
          (diversity recs games criterions, w') ∧
    extends w w' ∧ generator w' = generator w.
Proof.
  intros Hrecs Hgames. unfold Imperative.diversity, diversity.
  rewrite (bind_ok _ _ _ _ _ (load_games_ok w _ _ Hgames)).
  destruct (select_columns criterions games) as [selected|e].
  2: { rewrite lift_raise_bind. exists w. split; [reflexivity|].
       split; [by intros l o|done]. }
  rewrite lift_ok_bind.
  destruct (alloc_run w (OGames selected))
    as (lg & w1 & Ha1 & Hlg & Hg1 & Hkeep1).
  rewrite (bind_ok _ _ _ _ _ Ha1).
  rewrite (bind_ok _ _ _ _ _ (load_frame_ok w1 _ _ (Hkeep1 _ _ Hrecs))).
  destruct (alloc_run w1 (ODataFrame (select_user_item recs)))
    as (lt & w2 & Ha2 & Hlt & Hg2 & Hkeep2).
  rewrite (bind_ok _ _ _ _ _ Ha2).
  rewrite (bind_ok _ _ _ _ _ (load_frame_ok w2 _ _ Hlt)).
  rewrite (bind_ok _ _ _ _ _ (load_games_ok w2 _ _ (Hkeep2 _ _ Hlg))).
  destruct (alloc_run w2
              (OJoined (left_join (select_user_item recs) (games_rows selected))))
    as (lj & w3 & Ha3 & Hlj & Hg3 & Hkeep3).
  rewrite (bind_ok _ _ _ _ _ Ha3).
  rewrite (bind_ok _ _ _ _ _ (load_joined_ok w3 _ _ Hlj)).
  exists w3. split_and!.
  - simpl. by destruct (diversity_loop _ _).
  - intros l o Hl. by apply Hkeep3, Hkeep2, Hkeep1.
  - congruence.
Qed.
End refines.
End ImperativeRefines.

(** * Further properties of the four functions *)

(** ** [split_ratings_dataset] *)

Lemma rows_of_select_isin (u : string) (df : DataFrame) (values : list string) :
  rows_of u (select_isin df values) =
    if decide (u ∈ values) then rows_of u df else [].
Proof.
  unfold rows_of, select_isin. induction df as [|r df IH].
  - by destruct (decide (u ∈ values)).
  - rewrite (filter_cons (λ r, bgg_user_name r ∈ values)),
      (filter_cons (λ r, bgg_user_name r = u) r df).
    destruct (decide (bgg_user_name r ∈ values)) as [Hin|Hin];
      destruct (decide (bgg_user_name r = u)) as [Heq|Hne].
    + rewrite filter_cons, decide_True by done. rewrite IH.
      destruct (decide (u ∈ values)) as [|Hu]; [done|].
      by rewrite <- Heq in Hu.
    + rewrite filter_cons, decide_False by done. by rewrite IH.
    + rewrite IH. destruct (decide (u ∈ values)) as [Hu|]; [|done].
      by rewrite <- Heq in Hu.
    + by rewrite IH.
Qed.

Lemma rows_of_absent (u : string) (df : DataFrame) :
  u ∉ bgg_user_name <$> df → rows_of u df = [].
Proof.
  intros Hu. apply rows_of_other, Forall_forall. intros r Hr Heq.
  apply Hu, list_elem_of_fmap. by exists r.
Qed.

(** X1. [split_ratings_dataset] never divides a user: every user's rows
    are all in the training table or all in the test table, and both
    tables list their rows in the order of the input. *)
Theorem split_ratings_dataset_keeps_users_whole
    {G : Generator} (laws : GeneratorLaws G)
    (ratings_df : DataFrame) (seed : option Z) (frac : Q) (g : rng) :
  ∃ train test g',
    split_ratings_dataset ratings_df seed frac g = (Ok (train, test), g') ∧
    train `sublist_of` ratings_df ∧ test `sublist_of` ratings_df ∧
    ∀ u,
      (rows_of u train = rows_of u ratings_df ∧ rows_of u test = []) ∨
      (rows_of u train = [] ∧ rows_of u test = rows_of u ratings_df).
Proof.
  destruct (split_ratings_dataset_run ratings_df seed frac g) as [g' Hrun].
  set (users := shuffled_users ratings_df seed g) in *.
  set (k := py_int (scale frac (length users))) in *.
  eexists _, _, g'. split; [exact Hrun|].
  split; [apply sublist_filter|]. split; [apply sublist_filter|].
  intros u. rewrite !rows_of_select_isin.
  pose proof (NoDup_shuffled_users ratings_df seed g) as Hnd.
  fold users in Hnd. rewrite <- (slice_to_from users k) in Hnd.
  apply NoDup_app in Hnd as (_ & Hdisj & _).
  destruct (decide (u ∈ slice_to users k)) as [Hto|Hto].
  - left. split; [done|]. by rewrite decide_False by by apply Hdisj.
  - right. split; [done|].
    destruct (decide (u ∈ slice_from users k)) as [Hfrom|Hfrom]; [done|].
    symmetry. apply rows_of_absent. intros Hu.
    apply (elem_of_shuffled_users ratings_df seed g) in Hu. fold users in Hu.
    rewrite <- (slice_to_from users k) in Hu.
    apply elem_of_app in Hu as [?|?]; done.
Qed.

Lemma split_ratings_dataset_keeps_users_whole_witness :
  GeneratorLaws counter_generator ∧
  ∃ train test g',
    split_ratings_dataset (G := counter_generator)
      ratings_example (Some 5) (1 # 2) 0%nat = (Ok (train, test), g') ∧
    train `sublist_of` ratings_example ∧ test `sublist_of` ratings_example ∧
    ∀ u,
      (rows_of u train = rows_of u ratings_example ∧ rows_of u test = []) ∨
      (rows_of u train = [] ∧ rows_of u test = rows_of u ratings_example).
Proof.
  split; [exact counter_generator_laws|].
  exact (split_ratings_dataset_keeps_users_whole counter_generator_laws
           ratings_example (Some 5) (1 # 2) 0%nat).
Defined.

(** ** [split_testing_set] *)

Lemma omap_sublist {A B} (f : A → option B) (l1 l2 : list A) :
  l1 `sublist_of` l2 → omap f l1 `sublist_of` omap f l2.
Proof.
  induction 1 as [|x l1 l2 _ IH|x l1 l2 _ IH]; simpl.
  - constructor.
  - destruct (f x); [by constructor|done].
  - destruct (f x); [by constructor|done].
Qed.

Lemma sublist_same_length {A} (l1 l2 : list A) :
  l1 `sublist_of` l2 → length l1 = length l2 → l1 = l2.
Proof.
  induction 1 as [|x l1 l2 _ IH|x l1 l2 Hsub _]; simpl; intros Hlen.
  - done.
  - f_equal. apply IH. lia.
  - apply sublist_length in Hsub. lia.
Qed.

Lemma part_drawn_ok frac df part : part_drawn frac df part → part_ok frac df part.
Proof.
  intros (chosen & Hnd & Hlt & Hlen & ->). split; simpl.
  - by apply rows_at_Permutation, chosen_and_rest.
  - destruct (iloc_in_bounds df chosen Hlt) as [_ Hl]. by rewrite Hl.
Qed.


Section split_testing_set_drawn.
Context {G : Generator} {laws : GeneratorLaws G}.
Implicit Types (df test_df : DataFrame) (seed : option Z) (frac : Q).

Lemma split_group_drawn frac test_known test_unknown df g :
  size_ok frac df →
  ∃ part g',
    split_group frac (test_known, test_unknown) df g =
      (Ok (test_known ++ [part.1], test_unknown ++ [part.2]), g') ∧
    part_drawn frac df part.
Proof.
  intros Hsize. unfold split_group.
  destruct (choice_ok (length df) _ g Hsize)
    as (chosen & g' & Hchoice & Hlen & Hnd & Hlt).
  pose proof (chosen_and_rest _ _ Hnd Hlt) as Hperm.
  set (rest := np_setdiff1d (np_arange (length df)) chosen) in *.
  assert (Hrest : Forall (λ i, (i < length df)%nat) rest).
  { apply Forall_forall. intros i Hi.
    assert (i ∈ chosen ++ rest) as Hin by set_solver.
    rewrite Hperm in Hin. apply elem_of_seq in Hin. lia. }
  destruct (iloc_in_bounds df chosen Hlt) as [Hk _].
  destruct (iloc_in_bounds df rest Hrest) as [Hu _].
  exists (rows_at df chosen, rows_at df rest), g'. split.
  - rewrite (bind_ok _ _ _ _ _ Hchoice), Hk, lift_ok_bind.
    fold rest. by rewrite Hu, lift_ok_bind.
  - by exists chosen.
Qed.

Lemma split_groups_drawn frac grouped :
  Forall (λ group, size_ok frac group.2) grouped →
  ∀ test_known test_unknown g,
  ∃ parts g',
    split_groups frac (test_known, test_unknown) grouped g =
      (Ok (test_known ++ parts.*1, test_unknown ++ parts.*2), g') ∧
    Forall2 (λ group part, part_drawn frac group.2 part) grouped parts.
Proof.
  induction 1 as [|[u df] grouped Hsize _ IH]; intros test_known test_unknown g.
  - exists [], g. simpl. by rewrite !app_nil_r.
  - destruct (split_group_drawn frac test_known test_unknown df g Hsize)
      as (part & g1 & Hrun & Hpart).
    destruct (IH (test_known ++ [part.1]) (test_unknown ++ [part.2]) g1)
      as (parts & g' & Hrun' & Hparts).
    exists (part :: parts), g'. split; [|by constructor].
    simpl. rewrite (bind_ok _ _ _ _ _ Hrun), Hrun'.
    by rewrite <- !app_assoc.
Qed.

(** The call on a table with rows whose groups all allow their sample
    size: the two tables are the known and the unknown parts of the groups,
    in the sorted order of the users. *)
Lemma split_testing_set_drawn test_df seed frac g :
  test_df ≠ [] → sizes_ok frac test_df →
  ∃ parts g',
    split_testing_set test_df seed frac g =
      (Ok (concat parts.*1, concat parts.*2), g') ∧
    Forall2 (λ u part, part_drawn frac (rows_of u test_df) part)
      (np_unique_str (bgg_user_name <$> test_df)) parts.
Proof.
  intros Hne Hsizes. unfold split_testing_set.
  set (g0 := from_option np_random_seed g seed).
  assert (Hgroups : Forall (λ group, size_ok frac group.2) (groupby test_df)).
  { unfold groupby. apply Forall_fmap, Forall_forall. intros u Hu. simpl.
    apply Hsizes. by apply elem_of_np_unique_str. }
  destruct (split_groups_drawn frac _ Hgroups [] [] g0)
    as (parts & g' & Hrun & Hparts).
  simpl in Hrun.
  assert (Hparts_ne : parts ≠ []).
  { intros ->. apply Forall2_nil_inv_r in Hparts.
    by apply groupby_nil_inv in Hparts. }
  exists parts, g'. split.
  - erewrite bind_ok by reflexivity. fold g0.
    rewrite (bind_ok _ _ _ _ _ Hrun).
    destruct parts as [|part parts]; [done|]. reflexivity.
  - unfold groupby in Hparts. by rewrite Forall2_fmap_l in Hparts.
Qed.
End split_testing_set_drawn.


Lemma py_round_near (x : Q) :
  (x - (1 # 2) <= inject_Z (py_round x))%Q ∧
  (inject_Z (py_round x) <= x + (1 # 2))%Q.
Proof.
  pose proof (Qfloor_le x) as Hle. pose proof (Qlt_floor x) as Hlt.
  rewrite inject_Z_plus in Hlt. change (inject_Z 1) with 1%Q in Hlt.
  destruct (py_round_cases x) as [[-> Hlo]|[-> Hhi]].
  - split; lra.
  - rewrite inject_Z_plus. change (inject_Z 1) with 1%Q. split; lra.
Qed.

Lemma py_round_Z (z : Z) : py_round (inject_Z z) = z.
Proof.
  unfold py_round. rewrite Qfloor_Z.
  assert (Hlt : ∀ q : Q, (q - q < 1 # 2)%Q) by (intros q; lra).
  by rewrite (proj1 (Qlt_alt _ _) (Hlt (inject_Z z))).
Qed.

Lemma choice_raises {G : Generator} (n : nat) (size : Z) (g : rng) :
  ¬ (0 ≤ size ≤ Z.of_nat n) →
  ∃ msg, choice n size g = (Raise (ValueError msg), g).
Proof.
  intros Hbad. unfold choice.
  destruct (Z.ltb_spec size 0); [by eexists|].
  destruct (Z.ltb_spec (Z.of_nat n) size); [by eexists|]. lia.
Qed.






Lemma Forall2_fmap_eq {A B} (f : A → B) (l : list A) (k : list B) :
  Forall2 (λ x y, y = f x) l k → k = f <$> l.
Proof. induction 1 as [|x y l k -> _ ->]; done. Qed.

Lemma Forall2_lookup_r_elem {A B} (P : A → B → Prop) (l : list A)
    (k : list B) (y : B) :
  Forall2 P l k → y ∈ k → ∃ x, x ∈ l ∧ P x y.
Proof.
  induction 1 as [|x y' l k Hxy _ IH]; intros Hy.
  - by apply elem_of_nil in Hy.
  - apply elem_of_cons in Hy as [->|Hy].
    + exists x. split; [left|done].
    + destruct (IH Hy) as (x' & ? & ?). exists x'. split; [by right|done].
Qed.

Lemma concat_nil_Forall {A} (ls : list (list A)) :
  Forall (λ l, l = []) ls → concat ls = [].
Proof. induction 1 as [|? ? -> _ IH]; [done|]. exact IH. Qed.

Lemma filter_not_in_nil (l : list nat) : filter (λ i, i ∉ []) l = l.
Proof.
  induction l as [|i l IH]; [done|].
  rewrite filter_cons, decide_True, IH; [done|]. apply not_elem_of_nil.
Qed.

Lemma part_drawn_none frac df part :
  py_round (scale frac (length df)) = 0 →
  part_drawn frac df part → part = ([], df).
Proof.
  intros Hzero (chosen & _ & _ & Hlen & ->). rewrite Hzero in Hlen.
  destruct chosen; [|discriminate Hlen].
  rewrite np_setdiff1d_arange, filter_not_in_nil, rows_at_all. done.
Qed.

Lemma part_drawn_all frac df part :
  py_round (scale frac (length df)) = Z.of_nat (length df) →
  part_drawn frac df part → part.2 = [].
Proof.
  intros Hall Hdrawn.
  destruct (part_drawn_ok _ _ _ Hdrawn) as [Hp Hlen].
  apply Permutation_length in Hp. rewrite length_app in Hp.
  destruct part.2; [done|]. simpl in Hp. lia.
Qed.

(** X8. The extreme fractions of [split_testing_set] on a table with
    rows: with [frac = 0] nothing is known and the held-out table is the
    input regrouped by user, users in sorted order and each user's rows in
    input order; with [frac = 1] nothing is held out and the known table
    holds every row of the input. Neither raises. *)
Theorem split_testing_set_extreme_fractions
    {G : Generator} (laws : GeneratorLaws G)
    (test_df : DataFrame) (seed : option Z) (frac : Q) (g : rng) :
  test_df ≠ [] →
  ((frac == 0)%Q →
     ∃ g', split_testing_set test_df seed frac g =
             (Ok ([], concat (groupby test_df).*2), g')) ∧
  ((frac == 1)%Q →
     ∃ known g', split_testing_set test_df seed frac g = (Ok (known, []), g') ∧
       known ≡ₚ test_df).
Proof.
  intros Hne. split; intros Hfrac.
  - assert (Hround : ∀ n, py_round (scale frac n) = 0).
    { intros n. rewrite (py_round_comp _ (inject_Z 0)); [apply py_round_Z|].
      unfold scale. rewrite Hfrac. ring. }
    destruct (split_testing_set_drawn test_df seed frac g Hne)
      as (parts & g' & Hrun & Hparts).
    { intros u _. unfold size_ok. rewrite Hround. lia. }
    assert (Heq : parts = (λ u, ([], rows_of u test_df))
                           <$> np_unique_str (bgg_user_name <$> test_df)).
    { apply Forall2_fmap_eq. eapply Forall2_impl; [exact Hparts|].
      intros u part. apply part_drawn_none, Hround. }
    exists g'. rewrite Hrun, Heq. unfold groupby.
    set (keys := np_unique_str (bgg_user_name <$> test_df)).
    assert (H1 : concat ((λ u, (@nil row, rows_of u test_df)) <$> keys).*1 = [])
      by (induction keys as [|u keys IH]; [done|exact IH]).
    assert (H2 : ((λ u, (@nil row, rows_of u test_df)) <$> keys).*2 =
                 ((λ u, (u, rows_of u test_df)) <$> keys).*2)
      by (by rewrite <- !list_fmap_compose).
    by rewrite H1, H2.
  - assert (Hround : ∀ n, py_round (scale frac n) = Z.of_nat n).
    { intros n.
      rewrite (py_round_comp _ (inject_Z (Z.of_nat n))); [apply py_round_Z|].
      unfold scale. rewrite Hfrac. ring. }
    destruct (split_testing_set_drawn test_df seed frac g Hne)
      as (parts & g' & Hrun & Hparts).
    { intros u _. unfold size_ok. rewrite Hround. lia. }
    assert (Hnone : concat parts.*2 = []).
    { apply concat_nil_Forall, Forall_fmap, Forall_forall.
      intros part Hpart. simpl.
      apply (Forall2_lookup_r_elem _ _ _ _ Hparts) in Hpart
        as (u & _ & Hdrawn).
      by apply (part_drawn_all frac (rows_of u test_df) part (Hround _)). }
    exists (concat parts.*1), g'. rewrite Hrun, Hnone. split; [done|].
    assert (Hoks : Forall2 (λ group part, part_ok frac group.2 part)
                     (groupby test_df) parts).
    { unfold groupby. rewrite Forall2_fmap_l.
      eapply Forall2_impl; [exact Hparts|]. intros ??. apply part_drawn_ok. }
    pose proof (parts_concat _ _ _ Hoks) as Hp.
    rewrite Hnone, app_nil_r in Hp. rewrite Hp. apply groupby_concat.
Qed.

Lemma split_testing_set_extreme_fractions_witness :
  GeneratorLaws counter_generator ∧ ratings_example ≠ [] ∧
  ((0 == 0)%Q →
     ∃ g', split_testing_set (G := counter_generator)
             ratings_example None 0 0%nat =
             (Ok ([], concat (groupby ratings_example).*2), g')) ∧
  ((0 == 1)%Q →
     ∃ known g',
       split_testing_set (G := counter_generator)
         ratings_example None 0 0%nat = (Ok (known, []), g') ∧
       known ≡ₚ ratings_example).
Proof.
  assert (Hne : ratings_example ≠ []) by discriminate.
  split_and!; [exact counter_generator_laws|exact Hne|..];
    apply (split_testing_set_extreme_fractions counter_generator_laws
             ratings_example None 0 0%nat Hne).
Defined.

(** ** The two splits in sequence *)





(** ** [coverage] *)

Lemma item_set_app (df1 df2 : DataFrame) :
  item_set (df1 ++ df2) = item_set df1 ∪ item_set df2.
Proof. unfold item_set. by rewrite fmap_app, list_to_set_app_L. Qed.

(** X10. Bounds on [coverage]: it is at most the number of rows; it is 0
    only for the empty table; a table whose items all occur in another has
    at most the other's coverage; and the coverage of two tables put
    together is at least that of each and at most their sum. *)
Theorem coverage_bounds :
  (∀ df : DataFrame, (coverage df ≤ length df)%nat) ∧
  (∀ df : DataFrame, coverage df = 0%nat ↔ df = []) ∧
  (∀ df1 df2 : DataFrame,
     (∀ r, r ∈ df1 → bgg_id r ∈ bgg_id <$> df2) →
     (coverage df1 ≤ coverage df2)%nat) ∧
  (∀ df1 df2 : DataFrame,
     (coverage df1 `max` coverage df2 ≤ coverage (df1 ++ df2))%nat ∧
     (coverage (df1 ++ df2) ≤ coverage df1 + coverage df2)%nat).
Proof.
  assert (Hsz : ∀ df : DataFrame, coverage df = size (item_set df))
    by (intros df; apply length_unique_size).
  split_and!.
  - intros df. unfold coverage. rewrite <- (length_fmap bgg_id df).
    apply submseteq_length, NoDup_submseteq; [apply NoDup_unique|].
    intros x. by rewrite elem_of_unique.
  - intros df. split; [|by intros ->].
    unfold coverage. intros Hlen. destruct df as [|r df]; [done|].
    apply length_zero_iff_nil in Hlen.
    assert (bgg_id r ∈ unique (bgg_id <$> r :: df)) as Hin
      by (apply elem_of_unique; left).
    rewrite Hlen in Hin. by apply elem_of_nil in Hin.
  - intros df1 df2 Hsub. rewrite !Hsz. apply subseteq_size.
    intros x. unfold item_set. rewrite !elem_of_list_to_set.
    intros (r & -> & Hr)%list_elem_of_fmap. by apply Hsub.
  - intros df1 df2. rewrite !Hsz, item_set_app. split.
    + apply Nat.max_lub; apply subseteq_size; set_solver.
    + rewrite size_union_alt.
      assert (size (item_set df2 ∖ item_set df1) ≤ size (item_set df2))%nat
        by (apply subseteq_size; set_solver).
      lia.
Qed.

(** ** [diversity] *)

Lemma diversity_mean_of_distinct_labels_witness :
  ["category"; "mechanic"] ⊆ games_columns games_example ∧
  NoDup ["category"; "mechanic"] ∧
  no_key_column ["category"; "mechanic"] ∧
  (∀ u c, u ∈ bgg_user_name <$> top_n_example →
     c ∈ ["category"; "mechanic"] →
     has_labels c u top_n_example (games_rows games_example)) ∧
  ∃ mean_diversity,
    diversity top_n_example games_example ["category"; "mechanic"] =
      Ok mean_diversity ∧
    ∀ c, c ∈ ["category"; "mechanic"] →
      mean_diversity !! c =
        Some (np_mean
                ((λ u, distinct_labels c u top_n_example
                         (games_rows games_example))
                   <$> np_unique_str (bgg_user_name <$> top_n_example))).
Proof.
  assert (H1 : ["category"; "mechanic"] ⊆ games_columns games_example)
    by (intros c Hc; exact Hc).
  assert (H2 : NoDup ["category"; "mechanic"]).
  { apply NoDup_cons. split; [|apply NoDup_singleton].
    by intros ?%list_elem_of_singleton. }
  assert (H3 : ∀ u c, u ∈ bgg_user_name <$> top_n_example →
            c ∈ ["category"; "mechanic"] →
            has_labels c u top_n_example (games_rows games_example)).
  { intros u c Hu Hc. simpl in Hu.
    assert (u = "ann") as -> by set_solver.
    apply elem_of_cons in Hc as [->|Hc]; [discriminate|].
    apply list_elem_of_singleton in Hc as ->. discriminate. }
  assert (H4 : no_key_column ["category"; "mechanic"])
    by (split; by apply (bool_decide_unpack _)).
  split_and!; [exact H1|exact H2|exact H4|exact H3|].
  exact (diversity_mean_of_distinct_labels top_n_example games_example
           ["category"; "mechanic"] H1 H2 H4 H3).
Defined.

(** X12. On a recommendation table with no rows [diversity] does not
    raise, when the criteria are columns of the games table and none is
    named ['bgg_id'] or ['bgg_user_name']: there is no user to average
    over, and for each criterion the result is [nan], the [np.mean] of an
    empty list. *)
Theorem diversity_empty_recommendations
    (games_df : GamesFrame) (criterions : list string) :
  criterions ⊆ games_columns games_df →
  no_key_column criterions →
  ∃ mean_diversity,
    diversity [] games_df criterions = Ok mean_diversity ∧
    ∀ c, c ∈ criterions → mean_diversity !! c = Some nan.
Proof.
  intros Hcols _. unfold diversity.
  destruct (select_columns_ok _ _ Hcols) as (selected & -> & _).
  eexists. split; [reflexivity|]. intros c Hc.
  by rewrite mean_of_lookup, lookup_total_empty.
Qed.

Lemma diversity_empty_recommendations_witness :
  ["category"; "mechanic"] ⊆ games_columns games_example ∧
  no_key_column ["category"; "mechanic"] ∧
  ∃ mean_diversity,
    diversity [] games_example ["category"; "mechanic"] = Ok mean_diversity ∧
    ∀ c, c ∈ ["category"; "mechanic"] → mean_diversity !! c = Some nan.
Proof.
  assert (H1 : ["category"; "mechanic"] ⊆ games_columns games_example)
    by (intros c Hc; exact Hc).
  assert (H4 : no_key_column ["category"; "mechanic"])
    by (split; by apply (bool_decide_unpack _)).
  split_and!; [exact H1|exact H4|].
  exact (diversity_empty_recommendations games_example
           ["category"; "mechanic"] H1 H4).
Defined.

Lemma dom_mean_of (criterions : list string) (d : gmap string (list nat)) :
  dom (mean_of criterions d) = list_to_set criterions.
Proof.
  unfold mean_of.
  assert (Hgen : ∀ m : gmap string np_float,
    dom (foldl (λ mean_diversity criterion,
                  <[criterion := np_mean (d !!! criterion)]> mean_diversity)
           m criterions) = list_to_set criterions ∪ dom m).
  { induction criterions as [|c criterions IH]; intros m; cbn [foldl].
    - set_solver.
    - rewrite IH, dom_insert_L. set_solver. }
  rewrite Hgen. set_solver.
Qed.

Lemma mean_of_ext (criterions : list string) (d d' : gmap string (list nat)) :
  (∀ c, c ∈ criterions → np_mean (d !!! c) = np_mean (d' !!! c)) →
  mean_of criterions d = mean_of criterions d'.
Proof.
  unfold mean_of. generalize (∅ : gmap string np_float).
  induction criterions as [|c criterions IH]; intros m Hd; cbn [foldl]; [done|].
  rewrite (Hd c) by left. apply IH. intros c' Hc'. apply Hd. by right.
Qed.

Lemma joined_users (top_n_df : DataFrame) (games : list game) (u : string) :
  u ∈ joined_user <$> left_join (select_user_item top_n_df) games ↔
  u ∈ bgg_user_name <$> top_n_df.
Proof.
  rewrite !list_elem_of_fmap. split.
  - intros (jr & -> & Hjr).
    apply elem_of_left_join in Hjr as (r' & Hr' & Hjr).
    apply list_elem_of_fmap in Hr' as (r & -> & Hr).
    exists r. split; [|done].
    by destruct Hjr as [[_ ->]|(g & _ & _ & ->)].
  - intros (r & -> & Hr).
    destruct (left_join_keeps_rows (select_user_item top_n_df) games
                (Row (index_label r) (bgg_user_name r) (bgg_id r) []))
      as (jr & Hjr & Hrec).
    { apply list_elem_of_fmap. by exists r. }
    exists jr. split; [|done]. unfold joined_user. by rewrite Hrec.
Qed.

(** A user without any label collection under a requested criterion makes
    the call raise. *)
Lemma diversity_raises_at
    (top_n_df : DataFrame) (games_df : GamesFrame) (criterions : list string)
    (u c : string) :
  criterions ⊆ games_columns games_df →
  c ∈ criterions →
  u ∈ bgg_user_name <$> top_n_df →
  labels_of c u top_n_df (games_rows games_df) = [] →
  diversity top_n_df games_df criterions = Raise hstack_error.
Proof.
  intros Hcols Hc Hu Hnone. unfold diversity.
  destruct (select_columns_ok _ _ Hcols) as (selected & -> & Hrows).
  simpl. rewrite Hrows.
  rewrite (diversity_loop_raises criterions _ u c); [done| |done|].
  - by apply joined_users.
  - destruct (dropna _) as [|labels rest] eqn:Hcells; [done|].
    assert (labels ∈ labels_of c u top_n_df (games_rows games_df)) as Hin.
    { apply (elem_of_group_cells criterions c u top_n_df _ _ Hc).
      rewrite Hcells. left. }
    rewrite Hnone in Hin. by apply elem_of_nil in Hin.
Qed.

Lemma diversity_raise_only
    (top_n_df : DataFrame) (games_df : GamesFrame) (criterions : list string)
    (e : exception) :
  criterions ⊆ games_columns games_df →
  diversity top_n_df games_df criterions = Raise e → e = hstack_error.
Proof.
  intros Hcols. unfold diversity.
  destruct (select_columns_ok _ _ Hcols) as (selected & -> & Hrows).
  simpl. destruct (diversity_loop _ _) as [d|e'] eqn:Hloop; simpl; [done|].
  intros [= <-]. unfold diversity_loop in Hloop.
  eapply for_each_raise_only; [|exact Hloop].
  intros d group e. apply for_each_raise_only.
  intros ???. apply user_criterion_raise_only.
Qed.

(** X13. When [diversity] returns and when it raises, for distinct
    criterion names none of which is ['bgg_id'] or ['bgg_user_name']. A
    criterion that is not a column of the games table raises a [KeyError]
    before anything else is looked at. Otherwise the call returns exactly
    when every user has a label collection under every criterion; the
    returned dictionary has one entry per criterion and no other; and the
    only exception is the [ValueError] of [np.hstack] on an empty
    sequence. *)
Theorem diversity_returns_or_raises
    (top_n_df : DataFrame) (games_df : GamesFrame) (criterions : list string) :
  NoDup criterions →
  no_key_column criterions →
  (¬ criterions ⊆ games_columns games_df →
     ∃ msg, diversity top_n_df games_df criterions = Raise (KeyError msg)) ∧
  (criterions ⊆ games_columns games_df →
     ((∃ mean_diversity,
         diversity top_n_df games_df criterions = Ok mean_diversity) ↔
      (∀ u c, u ∈ bgg_user_name <$> top_n_df → c ∈ criterions →
         has_labels c u top_n_df (games_rows games_df))) ∧
     (∀ mean_diversity,
        diversity top_n_df games_df criterions = Ok mean_diversity →
        dom mean_diversity = list_to_set criterions) ∧
     (∀ e, diversity top_n_df games_df criterions = Raise e →
        e = hstack_error)).
Proof.
  intros Hnd _. split.
  - intros Hcols. unfold diversity, select_columns.
    rewrite decide_False by done. by eexists.
  - intros Hcols. split_and!.
    + split.
      * intros [m Hrun] u c Hu Hc Hnone.
        by rewrite (diversity_raises_at _ _ _ u c Hcols Hc Hu Hnone) in Hrun.
      * intros Hlabels.
        destruct (diversity_values _ _ _ Hcols Hnd Hlabels) as (d & Hrun & _).
        by eexists.
    + intros m. unfold diversity.
      destruct (select_columns_ok _ _ Hcols) as (selected & -> & Hrows).
      simpl. destruct (diversity_loop _ _) as [d|e]; simpl; [|done].
      intros [= <-]. apply dom_mean_of.
    + intros e. by apply diversity_raise_only.
Qed.

Lemma diversity_returns_or_raises_witness :
  NoDup ["category"; "mechanic"] ∧
  no_key_column ["category"; "mechanic"] ∧
  (¬ ["category"; "mechanic"] ⊆ games_columns games_example →
     ∃ msg,
       diversity top_n_unknown_item games_example ["category"; "mechanic"] =
         Raise (KeyError msg)) ∧
  (["category"; "mechanic"] ⊆ games_columns games_example →
     ((∃ mean_diversity,
         diversity top_n_unknown_item games_example ["category"; "mechanic"] =
           Ok mean_diversity) ↔
      (∀ u c, u ∈ bgg_user_name <$> top_n_unknown_item →
         c ∈ ["category"; "mechanic"] →
         has_labels c u top_n_unknown_item (games_rows games_example))) ∧
     (∀ mean_diversity,
        diversity top_n_unknown_item games_example ["category"; "mechanic"] =
          Ok mean_diversity →
        dom mean_diversity = list_to_set ["category"; "mechanic"]) ∧
     (∀ e, diversity top_n_unknown_item games_example ["category"; "mechanic"] =
             Raise e →
        e = hstack_error)).
Proof.
  assert (H2 : NoDup ["category"; "mechanic"]).
  { apply NoDup_cons. split; [|apply NoDup_singleton].
    by intros ?%list_elem_of_singleton. }
  assert (H4 : no_key_column ["category"; "mechanic"])
    by (split; by apply (bool_decide_unpack _)).
  split_and!; [exact H2|exact H4|..];
    apply (diversity_returns_or_raises top_n_unknown_item games_example
             ["category"; "mechanic"] H2 H4).
Defined.

Lemma labels_of_Permutation (c u : string) (df1 df2 : DataFrame)
    (games : list game) :
  df1 ≡ₚ df2 → labels_of c u df1 games ≡ₚ labels_of c u df2 games.
Proof. intros Hp. unfold labels_of, rows_of. by rewrite Hp. Qed.

Lemma distinct_labels_Permutation (c u : string) (df1 df2 : DataFrame)
    (games : list game) :
  df1 ≡ₚ df2 → distinct_labels c u df1 games = distinct_labels c u df2 games.
Proof.
  intros Hp. unfold distinct_labels. f_equal. apply set_eq. intros l.
  rewrite !elem_of_list_to_set, !elem_of_concat.
  by setoid_rewrite (labels_of_Permutation c u df1 df2 games Hp).
Qed.

#[local] Instance has_labels_dec c u df games :
  Decision (has_labels c u df games).
Proof. unfold has_labels. apply _. Defined.

(** X14. The order of the recommendations does not matter to
    [diversity]: two recommendation tables with the same rows in a
    different order give the same means, or the same exception, for
    distinct criterion names. *)
Theorem diversity_order_independent
    (top_n_df top_n_df' : DataFrame) (games_df : GamesFrame)
    (criterions : list string) :
  NoDup criterions → top_n_df ≡ₚ top_n_df' →
  diversity top_n_df games_df criterions =
    diversity top_n_df' games_df criterions.
Proof.
  intros Hnd Hp.
  destruct (decide (criterions ⊆ games_columns games_df)) as [Hcols|Hcols].
  2: { unfold diversity, select_columns. by rewrite decide_False. }
  set (games := games_rows games_df).
  destruct (decide (Forall (λ u, Forall (λ c, has_labels c u top_n_df games)
                                   criterions)
                      (bgg_user_name <$> top_n_df))) as [Hall|Hsome].
  - assert (H1 : ∀ u c, u ∈ bgg_user_name <$> top_n_df → c ∈ criterions →
              has_labels c u top_n_df games).
    { intros u c Hu Hc. rewrite Forall_forall in Hall.
      specialize (Hall u Hu). rewrite Forall_forall in Hall. by apply Hall. }
    assert (H2 : ∀ u c, u ∈ bgg_user_name <$> top_n_df' → c ∈ criterions →
              has_labels c u top_n_df' games).
    { intros u c Hu Hc. rewrite <- Hp in Hu. specialize (H1 u c Hu Hc).
      unfold has_labels in *. intros Hnil. apply H1.
      apply Permutation_nil_r.
      pose proof (labels_of_Permutation c u _ _ games Hp) as Hl.
      by rewrite Hnil in Hl. }
    destruct (diversity_values _ _ _ Hcols Hnd H1) as (d & -> & Hd).
    destruct (diversity_values _ _ _ Hcols Hnd H2) as (d' & -> & Hd').
    f_equal. apply mean_of_ext. intros c Hc.
    rewrite Hd, Hd' by done. fold games.
    assert (Hkeys : np_unique_str (bgg_user_name <$> top_n_df) ≡ₚ
                    np_unique_str (bgg_user_name <$> top_n_df')).
    { apply NoDup_Permutation; [apply NoDup_np_unique_str..|].
      intros u. rewrite !elem_of_np_unique_str. by rewrite Hp. }
    rewrite <- (np_mean_Permutation _ _ (fmap_Permutation _ _ _ Hkeys)).
    f_equal. apply list_fmap_ext. intros _ u _.
    by apply distinct_labels_Permutation.
  - apply not_Forall_Exists in Hsome; [|apply _].
    apply Exists_exists in Hsome as (u & Hu & Hsome). simpl in Hsome.
    apply not_Forall_Exists in Hsome; [|apply _].
    apply Exists_exists in Hsome as (c & Hc & Hnone). simpl in Hnone.
    assert (Hnil : labels_of c u top_n_df games = []).
    { unfold has_labels in Hnone.
      by destruct (decide (labels_of c u top_n_df games = [])). }
    rewrite (diversity_raises_at top_n_df _ _ u c Hcols Hc Hu Hnil).
    symmetry. apply (diversity_raises_at top_n_df' _ _ u c Hcols Hc).
    + by rewrite <- Hp.
    + apply Permutation_nil_r.
      pose proof (labels_of_Permutation c u _ _ games Hp) as Hl.
      rewrite Hnil in Hl. by symmetry.
Qed.

Lemma diversity_order_independent_witness :
  NoDup ["category"; "mechanic"] ∧
  top_n_unknown_item ≡ₚ reverse top_n_unknown_item ∧
  diversity top_n_unknown_item games_example ["category"; "mechanic"] =
    diversity (reverse top_n_unknown_item) games_example
      ["category"; "mechanic"].
Proof.
  assert (H2 : NoDup ["category"; "mechanic"]).
  { apply NoDup_cons. split; [|apply NoDup_singleton].
    by intros ?%list_elem_of_singleton. }
  assert (Hp : top_n_unknown_item ≡ₚ reverse top_n_unknown_item)
    by (symmetry; apply reverse_Permutation).
  split_and!; [exact H2|exact Hp|].
  exact (diversity_order_independent top_n_unknown_item
           (reverse top_n_unknown_item) games_example
           ["category"; "mechanic"] H2 Hp).
Defined.

(** * The two splits in double precision *)

(** ** Facts about doubles *)

Lemma mul_pow52 (m : positive) :
  (m * 4503599627370496)%positive =
  (m~0~0~0~0~0~0~0~0~0~0~0~0~0~0~0~0~0~0~0~0~0~0~0~0~0~0~0~0~0~0~0~0~0~0~0~0~0~0~0~0~0~0~0~0~0~0~0~0~0~0~0~0)%positive.
Proof. rewrite Pos.mul_comm. reflexivity. Qed.

Lemma shr_pow52 (m : positive) (e : Z) :
  shr (shr_record_of_loc (Z.pos (m * 4503599627370496)) loc_Exact) e 52 =
    (Build_shr_record (Z.pos m) false false, e + 52).
Proof. rewrite mul_pow52. reflexivity. Qed.

(** The product of a double and [1.0 = 2^52 * 2^-52] is the double: the
    mantissa is shifted back by 52 places with nothing to round. *)
Lemma SF64mul_one (s : bool) (m : positive) (e : Z) :
  bounded prec emax m e = true →
  SF64mul (S754_finite s m e) (S754_finite false 4503599627370496 (-52)) =
    S754_finite s m e.
Proof.
  intros Hb. apply andb_prop in Hb as [Hc He].
  unfold canonical_mantissa in Hc. apply Z.eqb_eq in Hc.
  unfold SF64mul, SFmul, binary_round_aux.
  rewrite xorb_false_r.
  assert (Hd : Zdigits2 (Z.pos (m * 4503599627370496)) + (e + -52) =
               Z.pos (digits2_pos m) + e).
  { rewrite mul_pow52. cbn [Zdigits2 digits2_pos].
    rewrite !Pos2Z.inj_succ. lia. }
  unfold shr_fexp at 1. rewrite Hd, Hc.
  replace (e - (e + -52)) with 52 by lia.
  rewrite shr_pow52.
  cbn [shr_m loc_of_shr_record round_nearest_even].
  replace (e + -52 + 52) with e by lia.
  unfold shr_fexp. cbn [Zdigits2]. rewrite Hc, Z.sub_diag.
  cbn [shr shr_record_of_loc shr_m]. by rewrite He.
Qed.

Lemma Prim2SF_mul_one (x : float) : Prim2SF (x * 1) = Prim2SF x.
Proof.
  rewrite mul_spec.
  pose proof (Prim2SF_valid x) as Hv.
  change (Prim2SF 1) with (S754_finite false 4503599627370496 (-52)).
  destruct (Prim2SF x) as [s|s| |s m e];
    [by destruct s..|done|by apply SF64mul_one].
Qed.

(** [frac * 1] is [frac]: the product with the count 1 is exact. *)
Lemma times_one (frac : float) : times frac 1 = (frac * 1)%float.
Proof. reflexivity. Qed.

Lemma exact_value_times_one (frac : float) :
  exact_value (times frac 1) = exact_value frac.
Proof. unfold exact_value. by rewrite times_one, Prim2SF_mul_one. Qed.

(** The rounded product is not the product of the rationals: seven tenths
    of 90 users are 62 users and of 45 rows 31 rows, three tenths of 5
    rows are 2 rows, a third of 3 users is 1 user, and [1.05 * 10] rounds
    to 10. *)
Lemma rounded_products :
  int_of_float (times 0.7 90) = Ok 62 ∧ py_int (scale (7 # 10) 90) = 63 ∧
  int_of_float (times 0.7 10) = Ok 7 ∧
  round_of_float (times 0.7 45) = Ok 31 ∧ py_round (scale (7 # 10) 45) = 32 ∧
  round_of_float (times 0.3 5) = Ok 2 ∧
  round_of_float (times 1.05 10) = Ok 10 ∧
  int_of_float (times (1 / 3) 3) = Ok 1.
Proof. by vm_compute. Qed.

(** ** [split_ratings_dataset] on doubles *)

Section binary64_split_ratings_dataset.
Context {G : Generator} {laws : GeneratorLaws G}.
Implicit Types (ratings_df : DataFrame) (seed : option Z) (frac : float).

(** The call, unfolded: when [int(frac * user_count)] is the number [k],
    the two tables are selected by the slices [users[:k]] and
    [users[k:]] of the shuffled users. *)
Lemma binary64_split_ratings_dataset_run ratings_df seed frac g k :
  let users := shuffled_users ratings_df seed g in
  int_of_float (times frac (length users)) = Ok k →
  ∃ g', Binary64.split_ratings_dataset ratings_df seed frac g =
          (Ok (select_isin ratings_df (slice_to users k),
               select_isin ratings_df (slice_from users k)), g').
Proof.
  unfold Binary64.split_ratings_dataset, shuffled_users, seed_if_given,
    shuffle, lift, mbind, SE_bind, mret, SE_ret. simpl.
  destruct (np_random_shuffle _ _) as [users g']. simpl.
  intros ->. by exists g'.
Qed.

(** A product that is not a number raises, at the conversion. *)
Lemma binary64_split_ratings_dataset_raises ratings_df seed frac g e :
  let users := shuffled_users ratings_df seed g in
  int_of_float (times frac (length users)) = Raise e →
  ∃ g', Binary64.split_ratings_dataset ratings_df seed frac g = (Raise e, g').
Proof.
  unfold Binary64.split_ratings_dataset, shuffled_users, seed_if_given,
    shuffle, lift, mbind, SE_bind, mret, SE_ret. simpl.
  destruct (np_random_shuffle _ _) as [users g']. simpl.
  intros ->. by exists g'.
Qed.

(** A run on a double is the run on any rational with the same
    [train_size]. *)
Lemma binary64_split_ratings_dataset_rational ratings_df seed frac g (q : Q) :
  let users := shuffled_users ratings_df seed g in
  int_of_float (times frac (length users)) = Ok (py_int (scale q (length users))) →
  Binary64.split_ratings_dataset ratings_df seed frac g =
    split_ratings_dataset ratings_df seed q g.
Proof.
  unfold Binary64.split_ratings_dataset, split_ratings_dataset,
    shuffled_users, seed_if_given,
    shuffle, lift, mbind, SE_bind, mret, SE_ret. simpl.
  destruct (np_random_shuffle _ _) as [users g']. simpl.
  by intros ->.
Qed.
End binary64_split_ratings_dataset.

Lemma int_of_float_nonneg (x : float) :
  match exact_value x with
  | DFinite q => (0 <= q)%Q → int_of_float x = Ok (Qfloor q) ∧ 0 ≤ Qfloor q
  | _ => True
  end.
Proof.
  unfold int_of_float. destruct (exact_value x) as [q| |]; [|done..].
  intros Hq. rewrite py_int_nonneg by done. split; [done|].
  rewrite <- (Qfloor_Z 0). by apply Qfloor_resp_le.
Qed.

(** C8, as the code has it. When the product [frac * user_count], as the
    code computes it in double precision, is a number and not negative,
    the training table holds the rows of the first
    [floor(frac * user_count)] users of the shuffled sequence of distinct
    users, the floor being that of the rounded product, and the test table
    the rows of the remaining users; with a single user in the input one
    of the two tables is empty. *)
Theorem split_ratings_dataset_cohorts
    {G : Generator} (laws : GeneratorLaws G)
    (ratings_df : DataFrame) (seed : option Z) (frac : float) (g : rng) :
  let users := shuffled_users ratings_df seed g in
  let user_count := length (unique (bgg_user_name <$> ratings_df)) in
  product_nonneg frac user_count →
  ∃ train test g',
    Binary64.split_ratings_dataset ratings_df seed frac g =
      (Ok (train, test), g') ∧
    users ≡ₚ unique (bgg_user_name <$> ratings_df) ∧
    (let train_size := Z.to_nat (product_floor frac user_count) in
     train = select_isin ratings_df (take train_size users) ∧
     test = select_isin ratings_df (drop train_size users) ∧
     user_set train = list_to_set (take train_size users) ∧
     user_set test = list_to_set (drop train_size users)) ∧
    (user_count = 1%nat → train = [] ∨ test = []).
Proof.
  intros users user_count Hprod.
  pose proof (shuffled_users_Permutation ratings_df seed g) as Hperm.
  fold users in Hperm.
  assert (Hlen : length users = user_count) by by rewrite Hperm.
  pose proof (int_of_float_nonneg (times frac user_count)) as Hint.
  unfold product_nonneg in Hprod. unfold product_floor.
  destruct (exact_value (times frac user_count)) as [q| |]; [|done..].
  destruct (Hint Hprod) as [Hk Hk0].
  destruct (binary64_split_ratings_dataset_run ratings_df seed frac g
              (Qfloor q)) as [g' Hrun].
  { fold users. by rewrite Hlen. }
  fold users in Hrun.
  eexists _, _, g'. split; [exact Hrun|]. split; [exact Hperm|]. split.
  - cbv zeta. set (train_size := Z.to_nat (Qfloor q)).
    destruct (slice_nonneg users _ Hk0) as [-> ->]. fold train_size.
    split_and!; [done..| |]; apply user_set_select_isin; intros u Hu.
    + apply (elem_of_shuffled_users ratings_df seed g). fold users.
      by apply subseteq_take in Hu.
    + apply (elem_of_shuffled_users ratings_df seed g). fold users.
      by apply subseteq_drop in Hu.
  - intros Hone. rewrite Hone in Hlen.
    destruct users as [|u [|??]]; try discriminate.
    unfold slice_to, slice_from. simpl length.
    destruct (slice_bound 1 (Qfloor q)) as [|n].
    + left. apply select_isin_nil.
    + right. simpl. rewrite drop_nil. apply select_isin_nil.
Qed.

Lemma split_ratings_dataset_cohorts_witness :
  GeneratorLaws counter_generator ∧
  let users := shuffled_users (G := counter_generator)
                 (one_row_each 90) (Some 1) 0%nat in
  let user_count := length (unique (bgg_user_name <$> one_row_each 90)) in
  product_nonneg 0.7 user_count ∧
  Z.to_nat (product_floor 0.7 user_count) = 62%nat ∧
  ∃ train test g',
    Binary64.split_ratings_dataset (G := counter_generator)
      (one_row_each 90) (Some 1) 0.7 0%nat = (Ok (train, test), g') ∧
    users ≡ₚ unique (bgg_user_name <$> one_row_each 90) ∧
    (let train_size := Z.to_nat (product_floor 0.7 user_count) in
     train = select_isin (one_row_each 90) (take train_size users) ∧
     test = select_isin (one_row_each 90) (drop train_size users) ∧
     user_set train = list_to_set (take train_size users) ∧
     user_set test = list_to_set (drop train_size users)) ∧
    (user_count = 1%nat → train = [] ∨ test = []).
Proof.
  assert (Hprod : product_nonneg 0.7
                    (length (unique (bgg_user_name <$> one_row_each 90))))
    by (vm_compute; discriminate).
  split; [exact counter_generator_laws|]. intros users user_count.
  split_and!; [exact Hprod|by vm_compute|].
  exact (split_ratings_dataset_cohorts counter_generator_laws
           (one_row_each 90) (Some 1) 0.7 0%nat Hprod).
Defined.

(** C8 as stated fails, in two ways. The product is rounded before the
    floor is taken: the double nearest to one third is below one third,
    so a third of the three users of [ratings_example] is less than one
    user, but the rounded product is [1.0] and the training table holds
    the rows of one user. And a negative [frac] makes the slice bound
    count from the end: with [frac = -0.5] the bound is [int(-1.5) = -1]
    and the training table holds the rows of all users but the last,
    where the floor of the product, exact or rounded, leaves no user to
    train on. *)
Lemma split_ratings_dataset_rounds_before_floor :
  (∃ third, exact_value (1 / 3) = DFinite third ∧
     (third < 1 # 3)%Q ∧ Qfloor (scale third 3) = 0) ∧
  int_of_float (times (1 / 3) 3) = Ok 1 ∧
  (Binary64.split_ratings_dataset (G := counter_generator)
     ratings_example (Some 0) (1 / 3) 0%nat).1 =
    Ok ([Row 0 "bob" 1 [("bgg_rating", "8")];
         Row 2 "bob" 3 [("bgg_rating", "7")];
         Row 4 "bob" 7 [("bgg_rating", "5")]],
        [Row 1 "al" 2 [("bgg_rating", "6")];
         Row 3 "cy" 1 [("bgg_rating", "9")]]) ∧
  int_of_float (times (-0.5) 3) = Ok (-1) ∧
  (Binary64.split_ratings_dataset (G := counter_generator)
     ratings_example (Some 0) (-0.5) 0%nat).1 =
    Ok ([Row 0 "bob" 1 [("bgg_rating", "8")];
         Row 1 "al" 2 [("bgg_rating", "6")];
         Row 2 "bob" 3 [("bgg_rating", "7")];
         Row 4 "bob" 7 [("bgg_rating", "5")]],
        [Row 3 "cy" 1 [("bgg_rating", "9")]]) ∧
  ¬ (∀ (G : Generator), GeneratorLaws G →
       ∀ (ratings_df : DataFrame) (seed : option Z) (frac : float) (g : rng)
         (q : Q),
         exact_value frac = DFinite q →
         let users := shuffled_users ratings_df seed g in
         let train_size := Z.to_nat (Qfloor (scale q (length users))) in
         ∃ train test g',
           Binary64.split_ratings_dataset ratings_df seed frac g =
             (Ok (train, test), g') ∧
           train = select_isin ratings_df (take train_size users) ∧
           test = select_isin ratings_df (drop train_size users)) ∧
  ¬ (∀ (G : Generator), GeneratorLaws G →
       ∀ (ratings_df : DataFrame) (seed : option Z) (frac : float) (g : rng),
         let users := shuffled_users ratings_df seed g in
         let train_size := Z.to_nat (product_floor frac (length users)) in
         ∃ train test g',
           Binary64.split_ratings_dataset ratings_df seed frac g =
             (Ok (train, test), g') ∧
           train = select_isin ratings_df (take train_size users) ∧
           test = select_isin ratings_df (drop train_size users)).
Proof.
  split_and!;
    [|by vm_compute|by vm_compute|by vm_compute|by vm_compute| |].
  - eexists. split; [by vm_compute|]. split; by vm_compute.
  - intros Hclaim.
    destruct (Hclaim counter_generator counter_generator_laws
                ratings_example (Some 0) (1 / 3)%float 0%nat _ eq_refl)
      as (train & test & g' & Hrun & Htrain & _).
    vm_compute in Hrun. injection Hrun as <- <- <-.
    vm_compute in Htrain. discriminate Htrain.
  - intros Hclaim.
    destruct (Hclaim counter_generator counter_generator_laws
                ratings_example (Some 0) (-0.5)%float 0%nat)
      as (train & test & g' & Hrun & Htrain & _).
    vm_compute in Hrun. injection Hrun as <- <- <-.
    vm_compute in Htrain. discriminate Htrain.
Qed.

Lemma py_int_small (q : Q) : (-1 < q)%Q → (q < 1)%Q → py_int q = 0.
Proof.
  destruct q as [n d]. unfold Qlt, py_int. simpl. intros Hlo Hhi.
  destruct (Z.le_gt_cases 0 n) as [Hn|Hn].
  - apply Z.quot_small. lia.
  - rewrite <- (Z.opp_involutive n), Z.quot_opp_l by lia.
    rewrite Z.quot_small by lia. done.
Qed.

(** X2. The degenerate results of [split_ratings_dataset] are returned,
    not raised. When the product [frac * user_count], as computed in
    double precision, is strictly between -1 and 1, its integer part is 0:
    the training table is empty and the test table is the whole input.
    This is so for a single user and any [frac] strictly between -1 and 1,
    the product with the count 1 being [frac] itself. When the product is
    at least the number of users, the training table is the whole input
    and the test table is empty. *)
Theorem split_ratings_dataset_degenerate
    {G : Generator} (laws : GeneratorLaws G)
    (ratings_df : DataFrame) (seed : option Z) (frac : float) (g : rng)
    (q : Q) :
  let user_count := length (unique (bgg_user_name <$> ratings_df)) in
  exact_value (times frac user_count) = DFinite q →
  ∃ train test g',
    Binary64.split_ratings_dataset ratings_df seed frac g =
      (Ok (train, test), g') ∧
    ((-1 < q)%Q → (q < 1)%Q → train = [] ∧ test = ratings_df) ∧
    (user_count = 1%nat → ∀ f, exact_value frac = DFinite f →
       (-1 < f)%Q → (f < 1)%Q → train = [] ∧ test = ratings_df) ∧
    ((inject_Z (Z.of_nat user_count) <= q)%Q →
       train = ratings_df ∧ test = []).
Proof.
  intros user_count Hq.
  set (users := shuffled_users ratings_df seed g).
  pose proof (shuffled_users_Permutation ratings_df seed g) as Hperm.
  fold users in Hperm.
  assert (Hlen : length users = user_count) by by rewrite Hperm.
  assert (Hall : ∀ u, u ∈ bgg_user_name <$> ratings_df → u ∈ users).
  { intros u Hu. by apply (elem_of_shuffled_users ratings_df seed g). }
  destruct (binary64_split_ratings_dataset_run ratings_df seed frac g
              (py_int q)) as [g' Hrun].
  { fold users. rewrite Hlen. unfold int_of_float. by rewrite Hq. }
  fold users in Hrun.
  assert (Hsmall : (-1 < q)%Q → (q < 1)%Q →
            select_isin ratings_df (slice_to users (py_int q)) = [] ∧
            select_isin ratings_df (slice_from users (py_int q)) = ratings_df).
  { intros Hlo Hhi. rewrite py_int_small by done.
    unfold slice_to, slice_from. simpl.
    split; [apply select_isin_nil|]. by apply select_isin_all. }
  eexists _, _, g'. split; [exact Hrun|]. split_and!.
  - exact Hsmall.
  - intros Hone f Hf Hlo Hhi. apply Hsmall.
    + rewrite Hone, exact_value_times_one, Hf in Hq. by injection Hq as <-.
    + rewrite Hone, exact_value_times_one, Hf in Hq. by injection Hq as <-.
  - intros Hge.
    assert (H0 : (0 <= q)%Q).
    { eapply Qle_trans; [|exact Hge].
      change 0%Q with (inject_Z 0). rewrite <- Zle_Qle. lia. }
    rewrite py_int_nonneg by done.
    assert (Z.of_nat user_count ≤ Qfloor q) as Hk.
    { rewrite <- (Qfloor_Z (Z.of_nat user_count)). by apply Qfloor_resp_le. }
    destruct (slice_nonneg users (Qfloor q)) as [-> ->]; [lia|].
    rewrite take_ge, drop_ge by lia.
    split; [by apply select_isin_all|apply select_isin_nil].
Qed.

Lemma split_ratings_dataset_degenerate_witness :
  GeneratorLaws counter_generator ∧
  ∃ q,
  let user_count := length (unique (bgg_user_name <$> one_rating)) in
  exact_value (times 0.7 user_count) = DFinite q ∧
  ∃ train test g',
    Binary64.split_ratings_dataset (G := counter_generator)
      one_rating None 0.7 3%nat = (Ok (train, test), g') ∧
    ((-1 < q)%Q → (q < 1)%Q → train = [] ∧ test = one_rating) ∧
    (user_count = 1%nat → ∀ f, exact_value 0.7 = DFinite f →
       (-1 < f)%Q → (f < 1)%Q → train = [] ∧ test = one_rating) ∧
    ((inject_Z (Z.of_nat user_count) <= q)%Q →
       train = one_rating ∧ test = []).
Proof.
  split; [exact counter_generator_laws|].
  eexists. intros user_count.
  assert (Hq : exact_value (times 0.7 user_count) = DFinite _)
    by (vm_compute; reflexivity).
  split; [exact Hq|].
  exact (split_ratings_dataset_degenerate counter_generator_laws
           one_rating None 0.7 3%nat _ Hq).
Defined.

(** X3. When [train_size = int(frac * user_count)], the product computed
    in double precision, is between 0 and the number of users, the
    training table of [split_ratings_dataset] has exactly [train_size]
    distinct users and the test table has the others. *)
Theorem split_ratings_dataset_user_counts
    {G : Generator} (laws : GeneratorLaws G)
    (ratings_df : DataFrame) (seed : option Z) (frac : float) (g : rng)
    (train_size : Z) :
  let user_count := size (user_set ratings_df) in
  int_of_float (times frac user_count) = Ok train_size →
  0 ≤ train_size ≤ Z.of_nat user_count →
  ∃ train test g',
    Binary64.split_ratings_dataset ratings_df seed frac g =
      (Ok (train, test), g') ∧
    size (user_set train) = Z.to_nat train_size ∧
    size (user_set test) = (user_count - Z.to_nat train_size)%nat.
Proof.
  intros user_count Hint Hk.
  set (users := shuffled_users ratings_df seed g).
  pose proof (shuffled_users_Permutation ratings_df seed g) as Hperm.
  pose proof (NoDup_shuffled_users ratings_df seed g) as Hnd.
  fold users in Hperm, Hnd.
  assert (Hlen : length users = user_count).
  { rewrite Hperm. unfold user_count, user_set. apply length_unique_size. }
  destruct (binary64_split_ratings_dataset_run ratings_df seed frac g
              train_size) as [g' Hrun].
  { fold users. by rewrite Hlen. }
  fold users in Hrun.
  destruct (slice_nonneg users train_size) as [Hto Hfrom]; [lia|].
  rewrite Hto, Hfrom in Hrun.
  eexists _, _, g'. split; [exact Hrun|].
  rewrite !user_set_select_isin.
  - rewrite <- (take_drop (Z.to_nat train_size) users) in Hnd.
    apply NoDup_app in Hnd as (Hnd1 & _ & Hnd2).
    rewrite !size_list_to_set by done.
    rewrite length_take, length_drop. lia.
  - intros u Hu. apply (elem_of_shuffled_users ratings_df seed g).
    fold users. by apply subseteq_drop in Hu.
  - intros u Hu. apply (elem_of_shuffled_users ratings_df seed g).
    fold users. by apply subseteq_take in Hu.
Qed.

Lemma split_ratings_dataset_user_counts_witness :
  GeneratorLaws counter_generator ∧
  let user_count := size (user_set (one_row_each 90)) in
  int_of_float (times 0.7 user_count) = Ok 62 ∧
  0 ≤ 62 ≤ Z.of_nat user_count ∧
  ∃ train test g',
    Binary64.split_ratings_dataset (G := counter_generator)
      (one_row_each 90) (Some 1) 0.7 0%nat = (Ok (train, test), g') ∧
    size (user_set train) = Z.to_nat 62 ∧
    size (user_set test) = (user_count - Z.to_nat 62)%nat.
Proof.
  split; [exact counter_generator_laws|]. intros user_count.
  assert (Hint : int_of_float (times 0.7 user_count) = Ok 62)
    by (vm_compute; reflexivity).
  assert (Hk : 0 ≤ 62 ≤ Z.of_nat user_count) by (vm_compute; split; discriminate).
  split; [exact Hint|]. split; [exact Hk|].
  exact (split_ratings_dataset_user_counts counter_generator_laws
           (one_row_each 90) (Some 1) 0.7 0%nat 62 Hint Hk).
Defined.

(** ** [split_testing_set] on doubles *)

Lemma size_allowed_inv (frac : float) (n : nat) :
  size_allowed frac n = true →
  ∃ k, round_of_float (times frac n) = Ok k ∧ 0 ≤ k ≤ Z.of_nat n.
Proof.
  unfold size_allowed. destruct (round_of_float _) as [k|e]; [|done].
  intros [H0 Hn]%andb_prop. exists k. split; [done|]. lia.
Qed.

Lemma round_of_float_inv (x : float) (k : Z) :
  round_of_float x = Ok k →
  ∃ q, exact_value x = DFinite q ∧ k = py_round q.
Proof.
  unfold round_of_float. destruct (exact_value x) as [q| |]; [|done..].
  intros [= <-]. by exists q.
Qed.

Lemma round_of_float_size_error (x : float) (e : exception) :
  round_of_float x = Raise e → size_error e.
Proof.
  unfold round_of_float. destruct (exact_value x); [done|..]; by intros [= <-].
Qed.

Lemma part_of_size_parts (k : Z) (df : DataFrame)
    (part : DataFrame * DataFrame) :
  part_of_size k df part →
  part.1 ++ part.2 ≡ₚ df ∧ Z.of_nat (length part.1) = k ∧
  part.2 `sublist_of` df.
Proof.
  intros (chosen & Hnd & Hlt & Hlen & ->). simpl. split_and!.
  - by apply rows_at_Permutation, chosen_and_rest.
  - destruct (iloc_in_bounds df chosen Hlt) as [_ Hl]. by rewrite Hl.
  - rewrite np_setdiff1d_arange.
    assert (Hsub : rows_at df (filter (λ i, i ∉ chosen) (seq 0 (length df)))
                     `sublist_of` rows_at df (seq 0 (length df)))
      by apply omap_sublist, sublist_filter.
    by rewrite rows_at_all in Hsub.
Qed.

(** The rows of a user in the concatenated parts are the user's own part,
    for parts that rearrange the groups of distinct users. *)
Lemma parts_by_user (P : string → DataFrame * DataFrame → Prop)
    (u : string) (df : DataFrame)
    (keys : list string) (parts : list (DataFrame * DataFrame)) :
  (∀ key part, P key part → part.1 ++ part.2 ≡ₚ rows_of key df) →
  NoDup keys → Forall2 P keys parts → u ∈ keys →
  ∃ part, P u part ∧
    rows_of u (concat parts.*1) = part.1 ∧
    rows_of u (concat parts.*2) = part.2.
Proof.
  intros HP.
  assert (Husers : ∀ key part, P key part →
            Forall (λ r, bgg_user_name r = key) part.1 ∧
            Forall (λ r, bgg_user_name r = key) part.2).
  { intros key part Hp%HP. split; apply Forall_forall; intros r Hr;
      apply (rows_of_user key df); rewrite <- Hp; set_solver. }
  assert (Hother : ∀ keys parts, Forall2 P keys parts → u ∉ keys →
            rows_of u (concat parts.*1) = [] ∧
            rows_of u (concat parts.*2) = []).
  { clear keys parts. induction 1 as [|key part keys parts Hpart _ IH];
      intros Hu; [done|].
    apply not_elem_of_cons in Hu as [Hne Hu].
    destruct (IH Hu) as [IH1 IH2].
    destruct (Husers _ _ Hpart) as [H1 H2].
    rewrite !fmap_cons. cbn [concat].
    rewrite !rows_of_app, IH1, IH2, !app_nil_r.
    split; apply rows_of_other; eapply Forall_impl; eauto; simpl; congruence. }
  intros Hnd Hparts. revert Hnd.
  induction Hparts as [|key part keys parts Hpart Hparts IH]; intros Hnd Hu.
  - by apply elem_of_nil in Hu.
  - apply NoDup_cons in Hnd as [Hkey Hnd].
    destruct (Husers _ _ Hpart) as [H1 H2].
    destruct (decide (u = key)) as [->|Hne].
    + destruct (Hother _ _ Hparts Hkey) as [E1 E2].
      exists part. split; [done|].
      rewrite !fmap_cons. cbn [concat].
      rewrite !rows_of_app, E1, E2, !app_nil_r.
      split; by apply rows_of_same.
    + apply elem_of_cons in Hu as [?|Hu]; [done|].
      destruct (IH Hnd Hu) as (part' & Hpart' & E1 & E2).
      exists part'. split; [done|].
      rewrite !fmap_cons. cbn [concat].
      rewrite !rows_of_app, E1, E2.
      split; (rewrite (rows_of_other u); [done|]);
        eapply Forall_impl; eauto; simpl; congruence.
Qed.

Section binary64_split_testing_set.
Context {G : Generator} {laws : GeneratorLaws G}.
Implicit Types (df test_df : DataFrame) (seed : option Z) (frac : float).

Lemma binary64_split_group_drawn frac test_known test_unknown df g k :
  round_of_float (times frac (length df)) = Ok k →
  0 ≤ k ≤ Z.of_nat (length df) →
  ∃ part g',
    Binary64.split_group frac (test_known, test_unknown) df g =
      (Ok (test_known ++ [part.1], test_unknown ++ [part.2]), g') ∧
    part_of_size k df part.
Proof.
  intros Hround Hsize. unfold Binary64.split_group.
  rewrite Hround, lift_ok_bind.
  destruct (choice_ok (length df) _ g Hsize)
    as (chosen & g' & Hchoice & Hlen & Hnd & Hlt).
  pose proof (chosen_and_rest _ _ Hnd Hlt) as Hperm.
  set (rest := np_setdiff1d (np_arange (length df)) chosen) in *.
  assert (Hrest : Forall (λ i, (i < length df)%nat) rest).
  { apply Forall_forall. intros i Hi.
    assert (i ∈ chosen ++ rest) as Hin by set_solver.
    rewrite Hperm in Hin. apply elem_of_seq in Hin. lia. }
  destruct (iloc_in_bounds df chosen Hlt) as [Hk _].
  destruct (iloc_in_bounds df rest Hrest) as [Hu _].
  exists (rows_at df chosen, rows_at df rest), g'. split.
  - rewrite (bind_ok _ _ _ _ _ Hchoice), Hk, lift_ok_bind.
    fold rest. by rewrite Hu, lift_ok_bind.
  - by exists chosen.
Qed.

Lemma binary64_split_group_raises frac acc df g :
  size_allowed frac (length df) = false →
  ∃ e, Binary64.split_group frac acc df g = (Raise e, g) ∧ size_error e.
Proof.
  intros Hbad. destruct acc as [tk tu]. unfold Binary64.split_group.
  unfold size_allowed in Hbad.
  destruct (round_of_float (times frac (length df))) as [k|e] eqn:Hround.
  - rewrite lift_ok_bind.
    destruct (choice_raises (length df) k g) as [msg Hchoice].
    { intros [H0 Hn]. apply andb_false_iff in Hbad as [?|?]; lia. }
    exists (ValueError msg). split; [|done].
    by rewrite (bind_raise _ _ _ _ _ Hchoice).
  - exists e. split; [|by eapply round_of_float_size_error].
    by rewrite lift_raise_bind.
Qed.

Lemma binary64_split_groups_drawn frac grouped :
  Forall (λ group, size_allowed frac (length group.2) = true) grouped →
  ∀ test_known test_unknown g,
  ∃ parts g',
    Binary64.split_groups frac (test_known, test_unknown) grouped g =
      (Ok (test_known ++ parts.*1, test_unknown ++ parts.*2), g') ∧
    Forall2 (λ group part,
               ∃ k, round_of_float (times frac (length group.2)) = Ok k ∧
                 part_of_size k group.2 part) grouped parts.
Proof.
  induction 1 as [|[u df] grouped Hsize _ IH]; intros test_known test_unknown g.
  - exists [], g. simpl. by rewrite !app_nil_r.
  - destruct (size_allowed_inv _ _ Hsize) as (k & Hround & Hk).
    destruct (binary64_split_group_drawn frac test_known test_unknown df g k
                Hround Hk) as (part & g1 & Hrun & Hpart).
    destruct (IH (test_known ++ [part.1]) (test_unknown ++ [part.2]) g1)
      as (parts & g' & Hrun' & Hparts).
    exists (part :: parts), g'. split; [|constructor; [by exists k|done]].
    cbn [Binary64.split_groups]. rewrite (bind_ok _ _ _ _ _ Hrun), Hrun'.
    by rewrite <- !app_assoc.
Qed.

Lemma binary64_split_groups_raises frac grouped :
  Exists (λ group, size_allowed frac (length group.2) = false) grouped →
  ∀ acc g, ∃ e g',
    Binary64.split_groups frac acc grouped g = (Raise e, g') ∧ size_error e.
Proof.
  induction grouped as [|[u df] grouped IH]; intros Hbad [tk tu] g.
  - by apply Exists_nil in Hbad.
  - cbn [Binary64.split_groups].
    destruct (size_allowed frac (length df)) eqn:Hsize.
    + destruct (size_allowed_inv _ _ Hsize) as (k & Hround & Hk).
      destruct (binary64_split_group_drawn frac tk tu df g k Hround Hk)
        as (part & g1 & Hrun & _).
      rewrite (bind_ok _ _ _ _ _ Hrun). apply IH.
      apply Exists_cons in Hbad as [Hbad|?]; [|done].
      simpl in Hbad. congruence.
    + destruct (binary64_split_group_raises frac (tk, tu) df g Hsize)
        as (e & Hgroup & He).
      exists e, g. split; [|done]. by rewrite (bind_raise _ _ _ _ _ Hgroup).
Qed.

Lemma sizes_allowed_groups frac test_df :
  sizes_allowed frac test_df = true ↔
  Forall (λ group, size_allowed frac (length group.2) = true)
    (groupby test_df).
Proof.
  unfold sizes_allowed, groupby. rewrite forallb_forall, Forall_fmap,
    Forall_forall.
  split; intros H u Hu; apply H; by apply list_elem_of_In.
Qed.

(** On a table with rows whose groups all allow their sample size, the
    call returns, and every user's known and held-out rows are the two
    parts drawn from the user's group, the known part of the size
    [round(frac * row_count)]. *)
Lemma binary64_split_testing_set_spec test_df seed frac g :
  test_df ≠ [] → sizes_allowed frac test_df = true →
  ∃ known heldout g',
    Binary64.split_testing_set test_df seed frac g =
      (Ok (known, heldout), g') ∧
    ∀ u, u ∈ bgg_user_name <$> test_df →
      ∃ k part,
        round_of_float (times frac (length (rows_of u test_df))) = Ok k ∧
        part_of_size k (rows_of u test_df) part ∧
        rows_of u known = part.1 ∧ rows_of u heldout = part.2.
Proof.
  intros Hne Hsizes. unfold Binary64.split_testing_set.
  set (g0 := from_option np_random_seed g seed).
  apply sizes_allowed_groups in Hsizes.
  destruct (binary64_split_groups_drawn frac _ Hsizes [] [] g0)
    as (parts & g' & Hrun & Hparts).
  simpl in Hrun.
  assert (Hparts_ne : parts ≠ []).
  { intros ->. apply Forall2_nil_inv_r in Hparts.
    by apply groupby_nil_inv in Hparts. }
  exists (concat parts.*1), (concat parts.*2), g'. split.
  - erewrite bind_ok by reflexivity. fold g0.
    rewrite (bind_ok _ _ _ _ _ Hrun).
    destruct parts as [|part parts]; [done|]. reflexivity.
  - intros u Hu. unfold groupby in Hparts.
    rewrite Forall2_fmap_l in Hparts. simpl in Hparts.
    destruct (parts_by_user
                (λ key part,
                   ∃ k, round_of_float
                          (times frac (length (rows_of key test_df))) = Ok k ∧
                     part_of_size k (rows_of key test_df) part)
                u test_df (np_unique_str (bgg_user_name <$> test_df)) parts)
      as (part & (k & Hround & Hpart) & E1 & E2).
    + intros key part (k & _ & Hpart).
      by apply part_of_size_parts in Hpart as [? _].
    + apply NoDup_np_unique_str.
    + exact Hparts.
    + by apply elem_of_np_unique_str.
    + by exists k, part.
Qed.

Lemma binary64_split_testing_set_raises test_df seed frac g :
  sizes_allowed frac test_df = false →
  ∃ e g',
    Binary64.split_testing_set test_df seed frac g = (Raise e, g') ∧
    size_error e.
Proof.
  intros Hbad.
  assert (Hex : Exists (λ group, size_allowed frac (length group.2) = false)
                  (groupby test_df)).
  { assert (Hno : ¬ Forall (λ group, size_allowed frac (length group.2) = true)
                      (groupby test_df)).
    { intros Hall%sizes_allowed_groups. congruence. }
    apply not_Forall_Exists in Hno; [|intros ?; apply _].
    eapply Exists_impl; [exact Hno|]. intros group Hg. simpl in Hg.
    by apply not_true_is_false. }
  destruct (binary64_split_groups_raises frac _ Hex ([], [])
              (from_option np_random_seed g seed)) as (e & g' & Hrun & He).
  exists e, g'. split; [|done]. unfold Binary64.split_testing_set.
  erewrite bind_ok by reflexivity.
  by rewrite (bind_raise _ _ _ _ _ Hrun).
Qed.
End binary64_split_testing_set.

Section binary64_and_rational.
Context {G : Generator}.

Lemma binary64_split_group_rational (frac : float) (q : Q)
    (acc : list DataFrame * list DataFrame) (df : DataFrame) (g : rng) :
  round_of_float (times frac (length df)) =
    Ok (py_round (scale q (length df))) →
  Binary64.split_group frac acc df g = split_group q acc df g.
Proof.
  intros Hround. destruct acc as [tk tu].
  unfold Binary64.split_group, split_group.
  by rewrite Hround, lift_ok_bind.
Qed.

Lemma binary64_split_groups_rational (frac : float) (q : Q)
    (grouped : list (string * DataFrame)) :
  Forall (λ group, round_of_float (times frac (length group.2)) =
                     Ok (py_round (scale q (length group.2)))) grouped →
  ∀ acc g, Binary64.split_groups frac acc grouped g = split_groups q acc grouped g.
Proof.
  induction 1 as [|[u df] grouped Hround _ IH]; intros acc g; [done|].
  cbn [Binary64.split_groups split_groups]. unfold mbind, SE_bind.
  rewrite (binary64_split_group_rational frac q acc df g Hround).
  destruct (split_group q acc df g) as [[acc'|e] g1]; [apply IH|done].
Qed.

(** A run of [split_testing_set] on a double is the run on a rational
    that gives every group the same sample size. *)
Lemma binary64_split_testing_set_rational
    (test_df : DataFrame) (seed : option Z) (frac : float) (q : Q) (g : rng) :
  (∀ u, u ∈ bgg_user_name <$> test_df →
     round_of_float (times frac (length (rows_of u test_df))) =
       Ok (py_round (scale q (length (rows_of u test_df))))) →
  Binary64.split_testing_set test_df seed frac g =
    split_testing_set test_df seed q g.
Proof.
  intros Hsizes. unfold Binary64.split_testing_set, split_testing_set.
  unfold mbind at 1 5, SE_bind. simpl.
  unfold mbind at 1 4, SE_bind.
  rewrite (binary64_split_groups_rational frac q); [done|].
  unfold groupby. apply Forall_fmap, Forall_forall. intros u Hu. simpl.
  apply Hsizes. by apply elem_of_np_unique_str.
Qed.
End binary64_and_rational.

(** C5, as the code has it. For a table with at least one row and a
    [frac] for which every user's [round(frac * row_count)] is a sample
    size between 0 and the user's row count, every user's known rows
    number [round(frac * row_count)]: the product is the one rounded to
    double precision and the rounding is the built-in one, a tie going to
    the even neighbour. A user with a single row has it among the known
    rows and no held-out row when [frac > 1/2], and has it held out, with
    no known row, when [frac = 1/2]. *)
Theorem split_testing_set_known_sizes
    {G : Generator} (laws : GeneratorLaws G)
    (test_df : DataFrame) (seed : option Z) (frac : float) (g : rng) :
  test_df ≠ [] → sizes_allowed frac test_df = true →
  ∃ known heldout g',
    Binary64.split_testing_set test_df seed frac g =
      (Ok (known, heldout), g') ∧
    (∀ u, u ∈ bgg_user_name <$> test_df →
       round_of_float (times frac (length (rows_of u test_df))) =
         Ok (Z.of_nat (length (rows_of u known)))) ∧
    (∀ q, exact_value frac = DFinite q → (1 # 2 < q)%Q →
       ∀ u r, rows_of u test_df = [r] →
         rows_of u known = [r] ∧ rows_of u heldout = []) ∧
    (∀ q, exact_value frac = DFinite q → (q == 1 # 2)%Q →
       ∀ u r, rows_of u test_df = [r] →
         rows_of u known = [] ∧ rows_of u heldout = [r]).
Proof.
  intros Hne Hsizes.
  destruct (binary64_split_testing_set_spec test_df seed frac g Hne Hsizes)
    as (known & heldout & g' & Hrun & Husers).
  exists known, heldout, g'.
  assert (Hsingle : ∀ q u r, exact_value frac = DFinite q →
            rows_of u test_df = [r] →
            ∃ part, part.1 ++ part.2 ≡ₚ [r] ∧
              Z.of_nat (length part.1) = py_round q ∧
              rows_of u known = part.1 ∧ rows_of u heldout = part.2).
  { intros q u r Hq Hr.
    assert (Hu : u ∈ bgg_user_name <$> test_df).
    { assert (r ∈ rows_of u test_df) as Hin by (rewrite Hr; left).
      apply list_elem_of_filter in Hin as [<- Hin].
      apply list_elem_of_fmap. by exists r. }
    destruct (Husers u Hu) as (k & part & Hround & Hpart & E1 & E2).
    apply part_of_size_parts in Hpart as (Hp & Hlen & _).
    rewrite Hr in Hp, Hround. simpl in Hround.
    apply round_of_float_inv in Hround as (q' & Hq' & ->).
    rewrite exact_value_times_one, Hq in Hq'. injection Hq' as <-.
    by exists part. }
  split_and!; [done| | |].
  - intros u Hu.
    destruct (Husers u Hu) as (k & part & Hround & Hpart & -> & _).
    apply part_of_size_parts in Hpart as (_ & -> & _). done.
  - intros q Hq Hhalf u r Hr.
    destruct (Hsingle q u r Hq Hr) as ([k h] & Hp & Hlen & -> & ->).
    simpl in *.
    destruct (py_round_near q) as [Hlo _].
    assert (0 < py_round q) as Hpos.
    { rewrite Zlt_Qlt. change (inject_Z 0) with 0%Q. lra. }
    destruct k as [|r' k]; simpl in Hlen; [lia|].
    destruct k as [|??]; [|by apply Permutation_length in Hp].
    destruct h as [|??]; [|by apply Permutation_length in Hp].
    by apply Permutation_singleton_inj in Hp as ->.
  - intros q Hq Hhalf u r Hr.
    destruct (Hsingle q u r Hq Hr) as ([k h] & Hp & Hlen & -> & ->).
    simpl in *.
    rewrite (py_round_comp _ (1 # 2)) in Hlen by done.
    destruct k as [|??]; [|discriminate Hlen].
    simpl in Hp. by apply Permutation_singleton_r in Hp as ->.
Qed.

Lemma split_testing_set_known_sizes_witness :
  GeneratorLaws counter_generator ∧ ann_and_zoe ≠ [] ∧
  sizes_allowed 0.7 ann_and_zoe = true ∧
  round_of_float (times 0.7 45) = Ok 31 ∧
  ∃ known heldout g',
    Binary64.split_testing_set (G := counter_generator)
      ann_and_zoe (Some 1) 0.7 0%nat = (Ok (known, heldout), g') ∧
    (∀ u, u ∈ bgg_user_name <$> ann_and_zoe →
       round_of_float (times 0.7 (length (rows_of u ann_and_zoe))) =
         Ok (Z.of_nat (length (rows_of u known)))) ∧
    (∀ q, exact_value 0.7 = DFinite q → (1 # 2 < q)%Q →
       ∀ u r, rows_of u ann_and_zoe = [r] →
         rows_of u known = [r] ∧ rows_of u heldout = []) ∧
    (∀ q, exact_value 0.7 = DFinite q → (q == 1 # 2)%Q →
       ∀ u r, rows_of u ann_and_zoe = [r] →
         rows_of u known = [] ∧ rows_of u heldout = [r]).
Proof.
  assert (Hne : ann_and_zoe ≠ []) by discriminate.
  assert (Hsizes : sizes_allowed 0.7 ann_and_zoe = true)
    by (vm_compute; reflexivity).
  split_and!; [exact counter_generator_laws|exact Hne|exact Hsizes|
               by vm_compute|].
  exact (split_testing_set_known_sizes counter_generator_laws
           ann_and_zoe (Some 1) 0.7 0%nat Hne Hsizes).
Defined.

(** X4. When [split_testing_set] returns and when it raises. On a table
    with rows, the call returns two tables when, for every user,
    [round(frac * row_count)] (the product rounded to double precision) is
    a number between 0 and the user's row count; otherwise nothing is
    returned: [np.random.choice] raises a [ValueError] for the size, or
    the rounding raises an [OverflowError] or a [ValueError] for an
    infinite product or a NaN. *)
Theorem split_testing_set_returns_or_raises
    {G : Generator} (laws : GeneratorLaws G)
    (test_df : DataFrame) (seed : option Z) (frac : float) (g : rng) :
  test_df ≠ [] →
  (sizes_allowed frac test_df = true →
     ∃ known heldout g',
       Binary64.split_testing_set test_df seed frac g =
         (Ok (known, heldout), g')) ∧
  (sizes_allowed frac test_df = false →
     ∃ e g',
       Binary64.split_testing_set test_df seed frac g = (Raise e, g') ∧
       size_error e).
Proof.
  intros Hne. split.
  - intros Hsizes.
    destruct (binary64_split_testing_set_spec test_df seed frac g Hne Hsizes)
      as (known & heldout & g' & Hrun & _).
    by exists known, heldout, g'.
  - apply binary64_split_testing_set_raises.
Qed.

Lemma split_testing_set_returns_or_raises_witness :
  GeneratorLaws counter_generator ∧ rows_of_ann 10 ≠ [] ∧
  sizes_allowed 1.05 (rows_of_ann 10) = true ∧
  sizes_allowed 1.5 (rows_of_ann 10) = false ∧
  (∃ known heldout g',
     Binary64.split_testing_set (G := counter_generator)
       (rows_of_ann 10) None 1.05 0%nat = (Ok (known, heldout), g')) ∧
  (∃ e g',
     Binary64.split_testing_set (G := counter_generator)
       (rows_of_ann 10) None 1.5 0%nat = (Raise e, g') ∧
     size_error e).
Proof.
  assert (Hne : rows_of_ann 10 ≠ []) by discriminate.
  assert (H1 : sizes_allowed 1.05 (rows_of_ann 10) = true)
    by (vm_compute; reflexivity).
  assert (H2 : sizes_allowed 1.5 (rows_of_ann 10) = false)
    by (vm_compute; reflexivity).
  split_and!; [exact counter_generator_laws|exact Hne|exact H1|exact H2|..].
  - exact (proj1 (split_testing_set_returns_or_raises counter_generator_laws
                    (rows_of_ann 10) None 1.05 0%nat Hne) H1).
  - exact (proj2 (split_testing_set_returns_or_raises counter_generator_laws
                    (rows_of_ann 10) None 1.5 0%nat Hne) H2).
Defined.

(** X5. The per-user rounding of [split_testing_set]: when the call
    returns, every user's number of known rows differs from the product
    [frac * row_count], as computed in double precision, by at most one
    half, and the user's held-out rows are the remaining
    [row_count - known] rows. *)
Theorem split_testing_set_rounding_drift
    {G : Generator} (laws : GeneratorLaws G)
    (test_df : DataFrame) (seed : option Z) (frac : float) (g : rng) :
  test_df ≠ [] → sizes_allowed frac test_df = true →
  ∃ known heldout g',
    Binary64.split_testing_set test_df seed frac g =
      (Ok (known, heldout), g') ∧
    ∀ u, u ∈ bgg_user_name <$> test_df →
      let row_count := length (rows_of u test_df) in
      let known_count := length (rows_of u known) in
      ∃ product, exact_value (times frac row_count) = DFinite product ∧
        (product - (1 # 2) <= inject_Z (Z.of_nat known_count))%Q ∧
        (inject_Z (Z.of_nat known_count) <= product + (1 # 2))%Q ∧
        length (rows_of u heldout) = (row_count - known_count)%nat.
Proof.
  intros Hne Hsizes.
  destruct (binary64_split_testing_set_spec test_df seed frac g Hne Hsizes)
    as (known & heldout & g' & Hrun & Husers).
  exists known, heldout, g'. split; [done|].
  intros u Hu row_count known_count.
  destruct (Husers u Hu) as (k & part & Hround & Hpart & E1 & E2).
  apply part_of_size_parts in Hpart as (Hp & Hlen & _).
  apply round_of_float_inv in Hround as (q & Hq & ->).
  exists q. unfold known_count, row_count. rewrite E1, E2, Hlen.
  destruct (py_round_near q) as [Hlo Hhi].
  split_and!; [done..|].
  apply Permutation_length in Hp. rewrite length_app in Hp. lia.
Qed.

Lemma split_testing_set_rounding_drift_witness :
  GeneratorLaws counter_generator ∧ ann_and_zoe ≠ [] ∧
  sizes_allowed 0.3 ann_and_zoe = true ∧
  ∃ known heldout g',
    Binary64.split_testing_set (G := counter_generator)
      ann_and_zoe (Some 2) 0.3 0%nat = (Ok (known, heldout), g') ∧
    ∀ u, u ∈ bgg_user_name <$> ann_and_zoe →
      let row_count := length (rows_of u ann_and_zoe) in
      let known_count := length (rows_of u known) in
      ∃ product, exact_value (times 0.3 row_count) = DFinite product ∧
        (product - (1 # 2) <= inject_Z (Z.of_nat known_count))%Q ∧
        (inject_Z (Z.of_nat known_count) <= product + (1 # 2))%Q ∧
        length (rows_of u heldout) = (row_count - known_count)%nat.
Proof.
  assert (Hne : ann_and_zoe ≠ []) by discriminate.
  assert (Hsizes : sizes_allowed 0.3 ann_and_zoe = true)
    by (vm_compute; reflexivity).
  split_and!; [exact counter_generator_laws|exact Hne|exact Hsizes|].
  exact (split_testing_set_rounding_drift counter_generator_laws
           ann_and_zoe (Some 2) 0.3 0%nat Hne Hsizes).
Defined.
